(** * multi-tenant-starter: organisation service and login handler

    A shallow embedding of
      - api/src/modules/organisation/organisation.service.ts
      - api/src/modules/organisation/organisation.repository.ts
      - api/src/modules/organisation/organisation.model.ts (validation schema)
      - api/src/modules/organisation/organisation.routes.ts (error mapping,
        handlers)
      - api/src/modules/auth/auth.routes.ts (the POST /login handler)
      - api/src/plugins/jwt.ts (token payload and signing defaults)

    Every [await] of the source is one node of a program tree; a handler
    gives the storage calls their meaning on a collection held as a list of
    documents.  Library functions whose code is not part of the repository
    (bson, bcrypt, the date formatter, the storage engine's pattern
    matcher) are fields of the [Libraries] interface. *)

From Stdlib Require Import String Ascii List ZArith Bool Lia Sorted Permutation.
Import ListNotations.
Local Open Scope string_scope.
Local Open Scope list_scope.

(* ================================================================== *)
(** * Part I: definitions                                              *)
(* ================================================================== *)

(** ** Text: the JavaScript string operations the code calls

    Source strings are sequences of UTF-16 code units; here a string is a
    sequence of code units below 256 (U+0000 .. U+00FF), on which [trim]
    and [toLowerCase] are modelled exactly. *)
Module JsText.

(** WhiteSpace and LineTerminator code points below 256: TAB, LF, VT, FF,
    CR, SP and NBSP. *)
Definition isWhiteSpace (c : ascii) : bool :=
  let n := nat_of_ascii c in
  (Nat.leb 9 n && Nat.leb n 13) || Nat.eqb n 32 || Nat.eqb n 160.

Fixpoint trimStart (s : string) : string :=
  match s with
  | EmptyString => EmptyString
  | String c r => if isWhiteSpace c then trimStart r else s
  end.

Fixpoint trimEnd (s : string) : string :=
  match s with
  | EmptyString => EmptyString
  | String c r =>
      match trimEnd r with
      | EmptyString => if isWhiteSpace c then EmptyString else String c EmptyString
      | String _ _ as r' => String c r'
      end
  end.

(** [String.prototype.trim] *)
Definition trim (s : string) : string := trimEnd (trimStart s).

(** Lower-case mapping of one code unit below 256: A-Z, and the Latin-1
    capitals U+00C0 .. U+00DE except the multiplication sign U+00D7. *)
Definition lowerChar (c : ascii) : ascii :=
  let n := nat_of_ascii c in
  if (Nat.leb 65 n && Nat.leb n 90)
     || (Nat.leb 192 n && Nat.leb n 222 && negb (Nat.eqb n 215))
  then ascii_of_nat (n + 32)
  else c.

(** [String.prototype.toLowerCase] *)
Fixpoint toLowerCase (s : string) : string :=
  match s with
  | EmptyString => EmptyString
  | String c r => String (lowerChar c) (toLowerCase r)
  end.

Fixpoint forallChars (p : ascii -> bool) (s : string) : bool :=
  match s with
  | EmptyString => true
  | String c r => p c && forallChars p r
  end.

(** *** Regular expressions, matched against the whole input

    The patterns of the source are all of the form [^...$] without the
    multiline flag, so [test] decides whether the entire string belongs to
    the language.  Matching is by derivatives. *)
Inductive regex : Type :=
| Void : regex
| Eps : regex
| Class (p : ascii -> bool) : regex
| Seq (r1 r2 : regex) : regex
| Alt (r1 r2 : regex) : regex
| Star (r : regex) : regex.

Definition Plus (r : regex) : regex := Seq r (Star r).

Fixpoint nullable (r : regex) : bool :=
  match r with
  | Void => false
  | Eps => true
  | Class _ => false
  | Seq r1 r2 => nullable r1 && nullable r2
  | Alt r1 r2 => nullable r1 || nullable r2
  | Star _ => true
  end.

Fixpoint deriv (c : ascii) (r : regex) : regex :=
  match r with
  | Void => Void
  | Eps => Void
  | Class p => if p c then Eps else Void
  | Seq r1 r2 =>
      if nullable r1
      then Alt (Seq (deriv c r1) r2) (deriv c r2)
      else Seq (deriv c r1) r2
  | Alt r1 r2 => Alt (deriv c r1) (deriv c r2)
  | Star r1 => Seq (deriv c r1) (Star r1)
  end.

Fixpoint test (r : regex) (s : string) : bool :=
  match s with
  | EmptyString => nullable r
  | String c s' => test (deriv c r) s'
  end.

(** The character class [[a-z0-9]]. *)
Definition lowerAlnum (c : ascii) : bool :=
  let n := nat_of_ascii c in
  (Nat.leb 97 n && Nat.leb n 122) || (Nat.leb 48 n && Nat.leb n 57).

Definition isHyphen (c : ascii) : bool := Ascii.eqb c "-"%char.

(** [/^[a-z0-9]+(?:-[a-z0-9]+)*$/] *)
Definition kebabPattern : regex :=
  Seq (Plus (Class lowerAlnum))
      (Star (Seq (Class isHyphen) (Plus (Class lowerAlnum)))).

(** Syntactic emptiness, and "every class of [r] lies inside [P]"; both
    are used to reason about [test]. *)
Fixpoint void (r : regex) : bool :=
  match r with
  | Void => true
  | Eps => false
  | Class _ => false
  | Seq r1 r2 => void r1 || void r2
  | Alt r1 r2 => void r1 && void r2
  | Star _ => false
  end.

Fixpoint classesWithin (P : ascii -> bool) (r : regex) : Prop :=
  match r with
  | Void => True
  | Eps => True
  | Class p => forall c, p c = true -> P c = true
  | Seq r1 r2 => classesWithin P r1 /\ classesWithin P r2
  | Alt r1 r2 => classesWithin P r1 /\ classesWithin P r2
  | Star r1 => classesWithin P r1
  end.

Definition kebabChar (c : ascii) : bool := lowerAlnum c || isHyphen c.

End JsText.

(** ** Programs: one node per [await]

    [Prog Op Ans Err A] is a handler body that performs awaited calls of
    the signature [Op], may throw an [Err] and otherwise returns an [A].  All
    programs are finite trees, so every run below terminates. *)
Module Effects.

(** [Op] names the awaited calls and [Ans op] is the type of the value the
    call [op] resolves to. *)
Inductive Prog (Op : Type) (Ans : Op -> Type) (Err A : Type) : Type :=
| Ret (a : A)
| Throw (e : Err)
| Await (op : Op) (k : Ans op -> Prog Op Ans Err A).

Arguments Ret {Op Ans Err A} a.
Arguments Throw {Op Ans Err A} e.
Arguments Await {Op Ans Err A} op k.

Fixpoint bind {Op Ans Err A B} (p : Prog Op Ans Err A)
  (f : A -> Prog Op Ans Err B) : Prog Op Ans Err B :=
  match p with
  | Ret a => f a
  | Throw e => Throw e
  | Await op k => Await op (fun x => bind (k x) f)
  end.

Definition await {Op Ans Err} (op : Op) : Prog Op Ans Err (Ans op) :=
  Await op Ret.

(** How a call ends: with a value, with a thrown domain error, or with an
    exception of the storage driver. *)
Inductive Result (Err A : Type) : Type :=
| Returned (a : A)
| Raised (e : Err)
| DriverError.

Arguments Returned {Err A} a.
Arguments Raised {Err A} e.
Arguments DriverError {Err A}.

(** An awaited call on a collection state [S] either answers and leaves a
    new state, or fails inside the driver ([None]). *)
Definition Handler (Op : Type) (Ans : Op -> Type) (S : Type) : Type :=
  forall op : Op, S -> option (Ans op * S).

(** A performed call is recorded with the state it was performed on. *)
Definition Event (Op S : Type) : Type := (Op * S)%type.

Definition interfere {S} (others : list (S -> S)) (s : S) : S :=
  match others with
  | [] => s
  | f :: _ => f s
  end.

(** [exec h others p s] runs [p] from state [s].  Other requests may run
    while this one is suspended at an [await]: before the n-th call of [p]
    the n-th element of [others] (if any) transforms the collection.  The
    result comes with the final state and the calls performed. *)
Fixpoint exec {Op Ans Err S A} (h : Handler Op Ans S) (others : list (S -> S))
  (p : Prog Op Ans Err A) (s : S) : Result Err A * S * list (Event Op S) :=
  match p with
  | Ret a => (Returned a, s, [])
  | Throw e => (Raised e, s, [])
  | Await op k =>
      let s1 := interfere others s in
      match h op s1 with
      | None => (DriverError, s1, [(op, s1)])
      | Some (x, s2) =>
          let '(r, s3, tr) := exec h (tl others) (k x) s2 in
          (r, s3, (op, s1) :: tr)
      end
  end.

(** A call that runs alone, from start to end. *)
Definition run {Op Ans Err S A} (h : Handler Op Ans S)
  (p : Prog Op Ans Err A) (s : S) : Result Err A * S :=
  fst (exec h [] p s).

Module Notations.
  Notation "x <- p ;; q" := (bind p (fun x => q))
    (at level 61, p at next level, right associativity).
  Notation "p ;; q" := (bind p (fun _ => q))
    (at level 61, right associativity).
End Notations.

End Effects.

(** ** Library interface

    An [ObjectId] is identified by its 24-character hexadecimal rendering;
    a [Date] by its milliseconds since the epoch. *)
Module Lib.

Record ObjectId : Type := mkObjectId { toHexString : string }.

(** [ObjectId.prototype.equals] *)
Definition equals (a b : ObjectId) : bool :=
  String.eqb (toHexString a) (toHexString b).

Definition Date : Type := Z.

Class Libraries : Type := {
  (** bson: [ObjectId.isValid(id)] and [new ObjectId(id)] on a string *)
  ObjectId_isValid : string -> bool;
  ObjectId_new : string -> ObjectId;
  (** [Date.prototype.toISOString] *)
  toISOString : Date -> string;
  (** bcryptjs: [compare(plaintext, hash)] *)
  bcrypt_compare : string -> string -> bool;
  (** the storage engine's [$regex] match: pattern source, flags, subject *)
  regexMatches : string -> string -> string -> bool
}.

End Lib.

(** ** Organisations *)
Module Organisation.
Import JsText Effects Effects.Notations Lib.

Inductive OrganisationStatus : Type := active | inactive | archived.

(** The stored document.  (organisation.model.ts names the identifier
    field [code]; the service, the repository and the route schemas read
    and write [slug], which is the name used here.) *)
Record OrganisationDocument : Type := mkOrganisationDocument {
  _id : ObjectId;
  name : string;
  slug : string;
  status : OrganisationStatus;
  createdAt : Date;
  updatedAt : Date
}.

(** [Omit<OrganisationDocument, '_id'>] *)
Record CreateOrganisationDoc : Type := mkCreateOrganisationDoc {
  new_name : string;
  new_slug : string;
  new_status : OrganisationStatus;
  new_createdAt : Date;
  new_updatedAt : Date
}.

(** The [$set] payload built by [update]: a field is [None] when the key is
    not set on the payload object. *)
Record UpdateOrganisationDoc : Type := mkUpdateOrganisationDoc {
  set_name : option string;
  set_slug : option string;
  set_status : option OrganisationStatus;
  set_updatedAt : option Date
}.

(** The argument of [create] as the body of [create] reads it: by its
    [name], [slug] and [status] keys. *)
Record CreateOrganisationInput : Type := mkCreateOrganisationInput {
  in_name : string;
  in_slug : string;
  in_status : option OrganisationStatus
}.

(** The argument of [update] as the body of [update] reads it: a key is
    [None] when it reads as [undefined]. *)
Record UpdateOrganisationInput : Type := mkUpdateOrganisationInput {
  upd_name : option string;
  upd_slug : option string;
  upd_status : option OrganisationStatus
}.

Record OrganisationResponse : Type := mkOrganisationResponse {
  res_id : string;
  res_name : string;
  res_slug : string;
  res_status : OrganisationStatus;
  res_createdAt : string;
  res_updatedAt : string
}.

Inductive OrganisationError : Type :=
| InvalidOrganisationIdError
| OrganisationNotFoundError
| OrganisationSlugTakenError.

Definition message (e : OrganisationError) : string :=
  match e with
  | InvalidOrganisationIdError => "Invalid organisation id"
  | OrganisationNotFoundError => "Organisation not found"
  | OrganisationSlugTakenError => "Organisation slug already exists"
  end.

(** *** Validation (organisation.model.ts)

    [createOrganisationSchema] is a [z.object] with the keys [name], [code]
    and [status].  It reads those three keys of the value it parses and
    returns an object with exactly those three keys: every other key of the
    body, [slug] among them, is stripped. *)

(** A JSON value as the schema tells them apart: a string, or anything
    else (a number, a boolean, [null], an array, an object). *)
Inductive JsonValue : Type :=
| JsonString (s : string)
| JsonOther.

(** A request body, by the keys that the schemas and the service name; a
    key is [None] when the object does not have it. *)
Record Body : Type := mkBody {
  body_name : option JsonValue;
  body_slug : option JsonValue;
  body_code : option JsonValue;
  body_status : option JsonValue
}.

(** [z.infer<typeof createOrganisationSchema>], the value [parse] returns
    (the type organisation.model.ts exports as [CreateOrganisationInput]):
    a name, a code and a status, and no slug.  The record
    [CreateOrganisationInput] above is the object as the body of [create]
    reads it, by its [name], [slug] and [status] keys. *)
Record ParsedOrganisation : Type := mkParsedOrganisation {
  parsed_name : string;
  parsed_code : string;
  parsed_status : OrganisationStatus
}.

(** [z.string().min(1, ...)] *)
Definition nameOk (s : string) : bool := Nat.leb 1 (String.length s).

(** [z.string().min(1, ...).regex(/^[a-z0-9]+(?:-[a-z0-9]+)*$/, ...)] *)
Definition codeOk (s : string) : bool :=
  Nat.leb 1 (String.length s) && test kebabPattern s.

(** [z.enum(organisationStatuses)] *)
Definition organisationStatusSchema (v : JsonValue) : option OrganisationStatus :=
  match v with
  | JsonString s =>
      if String.eqb s "active" then Some active
      else if String.eqb s "inactive" then Some inactive
      else if String.eqb s "archived" then Some archived
      else None
  | JsonOther => None
  end.

(** [createOrganisationSchema.parse(body)]; [None] stands for the thrown
    [ZodError]. *)
Definition createOrganisationSchema (body : Body) : option ParsedOrganisation :=
  match body_name body, body_code body with
  | Some (JsonString name), Some (JsonString code) =>
      if nameOk name && codeOk code then
        match body_status body with
        | None => Some (mkParsedOrganisation name code active)
        | Some v => option_map (mkParsedOrganisation name code)
                      (organisationStatusSchema v)
        end
      else None
  | _, _ => None
  end.

Definition optionOk {A} (ok : A -> bool) (o : option A) : bool :=
  match o with Some a => ok a | None => true end.

(** [z.infer<typeof updateOrganisationSchema>]: the keys of the create
    schema, each of which may be absent. *)
Record ParsedUpdate : Type := mkParsedUpdate {
  partial_name : option string;
  partial_code : option string;
  partial_status : option OrganisationStatus
}.

(** An optional string key: absent, or a string that passes [ok]; the
    outer [None] stands for the thrown [ZodError]. *)
Definition optionalString (ok : string -> bool) (v : option JsonValue)
  : option (option string) :=
  match v with
  | None => Some None
  | Some (JsonString s) => if ok s then Some (Some s) else None
  | Some JsonOther => None
  end.

(** [updateOrganisationSchema = createOrganisationSchema.partial()], applied
    with [parse].  What the library leaves under [status] when the body has
    no status (nothing, or the default of the key) depends on its release:
    [absentStatus] is that value. *)
Definition updateOrganisationSchema (absentStatus : option OrganisationStatus)
  (body : Body) : option ParsedUpdate :=
  match optionalString nameOk (body_name body),
        optionalString codeOk (body_code body) with
  | Some name, Some code =>
      match body_status body with
      | None => Some (mkParsedUpdate name code absentStatus)
      | Some v =>
          match organisationStatusSchema v with
          | Some status => Some (mkParsedUpdate name code (Some status))
          | None => None
          end
      end
  | _, _ => None
  end.

(** *** Repository (organisation.repository.ts)

    The collection is the list of its documents in natural order; [findOne]
    and the single-document writes act on the first match. *)
Module Repository.

Definition Store : Type := list OrganisationDocument.

Definition hasId (id : ObjectId) (d : OrganisationDocument) : bool :=
  equals (_id d) id.

Definition hasSlug (s : string) (d : OrganisationDocument) : bool :=
  String.eqb (slug d) s.

Definition findById (id : ObjectId) (st : Store) : option OrganisationDocument :=
  find (hasId id) st.

Definition findBySlug (s : string) (st : Store) : option OrganisationDocument :=
  find (hasSlug s) st.

(** [insertOne] with the identifier the driver generated; the collection's
    unique index on [_id] rejects an identifier already in use. *)
Definition create (insertedId : ObjectId) (payload : CreateOrganisationDoc)
  (st : Store) : option (OrganisationDocument * Store) :=
  if existsb (hasId insertedId) st then None
  else
    let d := mkOrganisationDocument insertedId (new_name payload)
               (new_slug payload) (new_status payload)
               (new_createdAt payload) (new_updatedAt payload) in
    Some (d, st ++ [d]).

Definition orElse {A} (o : option A) (a : A) : A :=
  match o with Some x => x | None => a end.

(** [{ $set: payload }] on one document *)
Definition applySet (payload : UpdateOrganisationDoc) (d : OrganisationDocument)
  : OrganisationDocument :=
  mkOrganisationDocument (_id d)
    (orElse (set_name payload) (name d))
    (orElse (set_slug payload) (slug d))
    (orElse (set_status payload) (status d))
    (createdAt d)
    (orElse (set_updatedAt payload) (updatedAt d)).

(** [findOneAndUpdate(filter, update, { returnDocument: 'after' })] *)
Fixpoint findOneAndUpdate (p : OrganisationDocument -> bool)
  (f : OrganisationDocument -> OrganisationDocument) (st : Store)
  : option OrganisationDocument * Store :=
  match st with
  | [] => (None, [])
  | d :: rest =>
      if p d then (Some (f d), f d :: rest)
      else let '(r, rest') := findOneAndUpdate p f rest in (r, d :: rest')
  end.

Definition updateById (id : ObjectId) (payload : UpdateOrganisationDoc)
  (st : Store) : option OrganisationDocument * Store :=
  findOneAndUpdate (hasId id) (applySet payload) st.

(** [deleteOne(filter)]: the deleted count and the remaining documents *)
Fixpoint deleteOne (p : OrganisationDocument -> bool) (st : Store)
  : nat * Store :=
  match st with
  | [] => (0, [])
  | d :: rest =>
      if p d then (1, rest)
      else let '(n, rest') := deleteOne p rest in (n, d :: rest')
  end.

Definition deleteById (id : ObjectId) (st : Store) : bool * Store :=
  let '(deletedCount, st') := deleteOne (hasId id) st in
  (Nat.eqb deletedCount 1, st').

(** The repository methods as awaited calls. *)
Inductive Call : Type :=
| FindById (id : ObjectId)
| FindBySlug (s : string)
| Create (payload : CreateOrganisationDoc)
| UpdateById (id : ObjectId) (payload : UpdateOrganisationDoc)
| DeleteById (id : ObjectId).

Definition Answer (c : Call) : Type :=
  match c with
  | FindById _ => option OrganisationDocument
  | FindBySlug _ => option OrganisationDocument
  | Create _ => OrganisationDocument
  | UpdateById _ _ => option OrganisationDocument
  | DeleteById _ => bool
  end.

Definition perform (insertedId : ObjectId) : Handler Call Answer Store :=
  fun op st =>
    match op return option (Answer op * Store) with
    | FindById id => Some (findById id st, st)
    | FindBySlug s => Some (findBySlug s st, st)
    | Create payload => create insertedId payload st
    | UpdateById id payload => Some (updateById id payload st)
    | DeleteById id => Some (deleteById id st)
    end.

End Repository.

(** *** Service (organisation.service.ts) *)
Section Service.
Context {L : Libraries}.

Definition M (A : Type) : Type :=
  Prog Repository.Call Repository.Answer OrganisationError A.

Definition toOrganisationResponse (organisation : OrganisationDocument)
  : OrganisationResponse :=
  mkOrganisationResponse
    (toHexString (_id organisation))
    (name organisation)
    (slug organisation)
    (status organisation)
    (toISOString (createdAt organisation))
    (toISOString (updatedAt organisation)).

Definition normaliseSlug (s : string) : string := toLowerCase (trim s).

Definition normaliseName (n : string) : string := trim n.

Definition parseObjectId (id : string) : M ObjectId :=
  if negb (ObjectId_isValid id) then Throw InvalidOrganisationIdError
  else Ret (ObjectId_new id).

Definition getById (id : string) : M OrganisationResponse :=
  objectId <- parseObjectId id ;;
  organisation <- await (Repository.FindById objectId) ;;
  match organisation with
  | None => Throw OrganisationNotFoundError
  | Some organisation => Ret (toOrganisationResponse organisation)
  end.

(** [now] is the value of [new Date()] read by the call. *)
Definition create (now : Date) (input : CreateOrganisationInput)
  : M OrganisationResponse :=
  let name := normaliseName (in_name input) in
  let slug := normaliseSlug (in_slug input) in
  existing <- await (Repository.FindBySlug slug) ;;
  match existing with
  | Some _ => Throw OrganisationSlugTakenError
  | None =>
      let organisationToCreate :=
        mkCreateOrganisationDoc name slug
          (match in_status input with Some s => s | None => active end)
          now now in
      organisation <- await (Repository.Create organisationToCreate) ;;
      Ret (toOrganisationResponse organisation)
  end.

(** The uniqueness re-check of [update], run only when the normalised slug
    differs from the loaded record's. *)
Definition checkSlugFree (organisation : OrganisationDocument) (slug : string)
  : M unit :=
  if negb (String.eqb slug (Organisation.slug organisation)) then
    existing <- await (Repository.FindBySlug slug) ;;
    match existing with
    | Some existing =>
        if negb (equals (_id existing) (_id organisation))
        then Throw OrganisationSlugTakenError
        else Ret tt
    | None => Ret tt
    end
  else Ret tt.

Definition update (now : Date) (id : string) (input : UpdateOrganisationInput)
  : M OrganisationResponse :=
  objectId <- parseObjectId id ;;
  organisation <- await (Repository.FindById objectId) ;;
  match organisation with
  | None => Throw OrganisationNotFoundError
  | Some organisation =>
      let payload_name := option_map normaliseName (upd_name input) in
      payload_slug <-
        match upd_slug input with
        | Some s =>
            checkSlugFree organisation (normaliseSlug s) ;;
            Ret (Some (normaliseSlug s))
        | None => Ret None
        end ;;
      let payload :=
        mkUpdateOrganisationDoc payload_name payload_slug (upd_status input)
          (Some now) in
      updated <- await (Repository.UpdateById (_id organisation) payload) ;;
      match updated with
      | None => Throw OrganisationNotFoundError
      | Some updated => Ret (toOrganisationResponse updated)
      end
  end.

Definition delete (id : string) : M unit :=
  objectId <- parseObjectId id ;;
  deleted <- await (Repository.DeleteById objectId) ;;
  if negb deleted then Throw OrganisationNotFoundError else Ret tt.

End Service.

(** *** Descriptions used to state the properties of Part II *)
Section Descriptions.
Context {L : Libraries}.

(** The [$set] payload that [update] builds from its input. *)
Definition updatePayload (now : Date) (input : UpdateOrganisationInput)
  : UpdateOrganisationDoc :=
  mkUpdateOrganisationDoc
    (option_map normaliseName (upd_name input))
    (option_map normaliseSlug (upd_slug input))
    (upd_status input)
    (Some now).

(** The collection as a call finds it at its first, second and third
    awaited call, when the requests [others] run in between (the reads of
    the call leave the collection as it is). *)
Definition seenFirst (others : list (Repository.Store -> Repository.Store))
  (st : Repository.Store) : Repository.Store :=
  interfere others st.

Definition seenSecond (others : list (Repository.Store -> Repository.Store))
  (st : Repository.Store) : Repository.Store :=
  interfere (tl others) (seenFirst others st).

Definition seenThird (others : list (Repository.Store -> Repository.Store))
  (st : Repository.Store) : Repository.Store :=
  interfere (tl (tl others)) (seenSecond others st).

(** The slug that [update] looks up again: the normalised slug of the
    input, when there is one and it differs from the slug of the loaded
    record. *)
Definition rechecks (input : UpdateOrganisationInput)
  (organisation : OrganisationDocument) : option string :=
  match upd_slug input with
  | Some s =>
      if String.eqb (normaliseSlug s) (slug organisation) then None
      else Some (normaliseSlug s)
  | None => None
  end.

(** How [update] ends once [updateById] has answered. *)
Definition written (r : option OrganisationDocument * Repository.Store)
  : Result OrganisationError OrganisationResponse * Repository.Store :=
  match r with
  | (Some u, st') => (Returned (toOrganisationResponse u), st')
  | (None, st') => (Raised OrganisationNotFoundError, st')
  end.

(** The last step of [update]: the awaited [updateById] and the answer
    built from its result. *)
Definition writeStep (oid : ObjectId) (payload : UpdateOrganisationDoc)
  : M OrganisationResponse :=
  Await (Repository.UpdateById oid payload)
    (fun x : option OrganisationDocument =>
       match x with
       | Some updated => Ret (toOrganisationResponse updated)
       | None => Throw OrganisationNotFoundError
       end).

End Descriptions.

(** The invariant of the collection: identifiers are pairwise distinct,
    slugs are pairwise distinct, and every slug is kebab-case. *)
Definition wellFormed (st : Repository.Store) : Prop :=
  NoDup (map _id st)
  /\ NoDup (map slug st)
  /\ Forall (fun d => test kebabPattern (slug d) = true) st.

End Organisation.

(** ** Login *)
Module Auth.
Import JsText Effects Effects.Notations Lib.

(** user.model.ts *)
Inductive UserStatus : Type := active | inactive | invited | suspended.

Definition statusText (s : UserStatus) : string :=
  match s with
  | active => "active"
  | inactive => "inactive"
  | invited => "invited"
  | suspended => "suspended"
  end.

Definition isActive (s : UserStatus) : bool :=
  match s with active => true | _ => false end.

Record UserDocument : Type := mkUserDocument {
  _id : ObjectId;
  createdAt : Date;
  updatedAt : Date;
  orgId : option ObjectId;
  roleId : option ObjectId;
  designationId : option ObjectId;
  email : string;
  passwordHash : string;
  status : UserStatus;
  mobileNumber : option string;
  lastLoginAt : option Date
}.

(** config/env.ts: the settings the handler and the jwt plugin read *)
Record Config : Type := mkConfig {
  JWT_ACCESS_SECRET : string;
  JWT_REFRESH_SECRET : string;
  JWT_ACCESS_TTL : string;
  JWT_REFRESH_TTL : string
}.

(** The application instance as the handler sees it: whether
    [app.mongo.db] is set, and [app.config]. *)
Record App : Type := mkApp {
  mongo_db : bool;
  config : Config
}.

(** plugins/jwt.ts *)
Inductive TokenType : Type := access | refresh.

Record JwtPayload : Type := mkJwtPayload {
  sub : string;
  jwt_email : string;
  jwt_orgId : option string;
  jwt_roleId : option string;
  jwt_designationId : option string;
  sessionId : string;
  tokenType : TokenType
}.

(** The per-call options of [app.jwt.sign]. *)
Record SignOptions : Type := mkSignOptions {
  expiresIn : option string;
  key : option string
}.

(** A signed token, represented by what determines it: the payload, the
    signing key and the lifetime.  Decoding gives the payload back. *)
Record Token : Type := mkToken {
  tok_payload : JwtPayload;
  tok_key : string;
  tok_expiresIn : string
}.

Definition decode (t : Token) : JwtPayload := tok_payload t.

Definition orDefault {A} (o : option A) (a : A) : A :=
  match o with Some x => x | None => a end.

(** [app.jwt.sign(payload, options?)] with the defaults the plugin was
    registered with: [secret: JWT_ACCESS_SECRET] and
    [sign: { expiresIn: JWT_ACCESS_TTL }]. *)
Definition jwt_sign (app : App) (payload : JwtPayload)
  (options : option SignOptions) : Token :=
  mkToken payload
    (orDefault (match options with Some o => key o | None => None end)
               (JWT_ACCESS_SECRET (config app)))
    (orDefault (match options with Some o => expiresIn o | None => None end)
               (JWT_ACCESS_TTL (config app))).

Record LoginBody : Type := mkLoginBody {
  body_email : string;
  body_password : string
}.

Record LoginUser : Type := mkLoginUser {
  user_id : string;
  user_email : string;
  user_status : UserStatus;
  user_orgId : option string;
  user_roleId : option string;
  user_designationId : option string;
  user_mobileNumber : option string;
  user_lastLoginAt : string
}.

Record LoginReply : Type := mkLoginReply {
  accessToken : Token;
  refreshToken : Token;
  user : LoginUser
}.

(** What the handler answers: the reply object (200), or the reply sent by
    [reply.unauthorized] (401) or [reply.forbidden] (403). *)
Inductive Outcome : Type :=
| LoggedIn (r : LoginReply)
| Unauthorized (message : string)
| Forbidden (message : string).

(** [app.httpErrors.internalServerError(message)], thrown. *)
Inductive HttpError : Type :=
| InternalServerError (message : string).

(** *** The users collection *)
Inductive Filter : Type :=
| EmailIs (value : string)
| EmailRegExp (source flags : string)
| IdIs (id : ObjectId).

(** [{ $set: { lastLoginAt, updatedAt } }] *)
Record LoginStamp : Type := mkLoginStamp {
  set_lastLoginAt : Date;
  set_updatedAt : Date
}.

Inductive Call : Type :=
| FindOne (filter : Filter)
| BcryptCompare (password hash : string)
| UpdateOne (filter : Filter) (set : LoginStamp).

Definition Answer (c : Call) : Type :=
  match c with
  | FindOne _ => option UserDocument
  | BcryptCompare _ _ => bool
  | UpdateOne _ _ => unit
  end.

Definition Users : Type := list UserDocument.

Section Collection.
Context {L : Libraries}.

Definition matches (f : Filter) (d : UserDocument) : bool :=
  match f with
  | EmailIs value => String.eqb (email d) value
  | EmailRegExp source flags => regexMatches source flags (email d)
  | IdIs id => equals (_id d) id
  end.

Definition findOne (f : Filter) (st : Users) : option UserDocument :=
  find (matches f) st.

Definition applyStamp (set : LoginStamp) (d : UserDocument) : UserDocument :=
  mkUserDocument (_id d) (createdAt d) (set_updatedAt set)
    (orgId d) (roleId d) (designationId d) (email d) (passwordHash d)
    (status d) (mobileNumber d) (Some (set_lastLoginAt set)).

(** [updateOne]: the first matching document, if any, is modified. *)
Fixpoint updateOne (f : Filter) (set : LoginStamp) (st : Users) : Users :=
  match st with
  | [] => []
  | d :: rest =>
      if matches f d then applyStamp set d :: rest
      else d :: updateOne f set rest
  end.

Definition perform : Handler Call Answer Users :=
  fun op st =>
    match op return option (Answer op * Users) with
    | FindOne f => Some (findOne f st, st)
    | BcryptCompare password hash => Some (bcrypt_compare password hash, st)
    | UpdateOne f set => Some (tt, updateOne f set st)
    end.

End Collection.

(** A call is a write when it is an [updateOne]. *)
Definition isWrite (e : Event Call Users) : bool :=
  match fst e with
  | UpdateOne _ _ => true
  | _ => false
  end.

Definition writes (tr : list (Event Call Users)) : list (Event Call Users) :=
  filter isWrite tr.

(** *** The handler of POST /login (auth.routes.ts) *)
Definition isRegexSpecial (c : ascii) : bool :=
  existsb (Ascii.eqb c)
    [ "."; "*"; "+"; "?"; "^"; "$"; "{"; "}"; "("; ")"; "|"; "["; "]";
      "\" ]%char.

(** [value.replace(/[.*+?^${}()|[\]\\]/g, '\\$&')] *)
Fixpoint escapeForRegex (value : string) : string :=
  match value with
  | EmptyString => EmptyString
  | String c r =>
      if isRegexSpecial c then String "\"%char (String c (escapeForRegex r))
      else String c (escapeForRegex r)
  end.

Definition invalidCredentials : string := "Invalid email or password".

Section Handler.
Context {L : Libraries}.

Definition M (A : Type) : Type := Prog Call Answer HttpError A.

Definition call (op : Call) : M (Answer op) := await op.

(** The two-step lookup: the exact address first, then the anchored
    case-insensitive pattern when the trimmed address is not empty. *)
Definition lookup (trimmedEmail : string) : M (option UserDocument) :=
  user <- call (FindOne (EmailIs trimmedEmail)) ;;
  match user with
  | None =>
      if negb (String.eqb trimmedEmail "") then
        call (FindOne (EmailRegExp ("^" ++ escapeForRegex trimmedEmail ++ "$") "i"))
      else Ret user
  | Some _ => Ret user
  end.

Definition hexOf (o : option ObjectId) : option string :=
  option_map toHexString o.

(** [loginTime] is the value of [new Date()] and [uuid] the value of
    [randomUUID()] read by the call. *)
Definition login (app : App) (loginTime : Date) (uuid : string)
  (body : LoginBody) : M Outcome :=
  if negb (mongo_db app)
  then Throw (InternalServerError "Database connection not initialised")
  else
    let trimmedEmail := trim (body_email body) in
    user <- lookup trimmedEmail ;;
    match user with
    | None => Ret (Unauthorized invalidCredentials)
    | Some user =>
        isValidPassword <-
          call (BcryptCompare (body_password body) (passwordHash user)) ;;
        if negb isValidPassword then Ret (Unauthorized invalidCredentials)
        else if negb (isActive (status user))
        then Ret (Forbidden ("User is " ++ statusText (status user)))
        else
          let basePayload := fun kind =>
            mkJwtPayload (toHexString (_id user)) (email user)
              (hexOf (orgId user)) (hexOf (roleId user))
              (hexOf (designationId user)) uuid kind in
          let accessToken := jwt_sign app (basePayload access) None in
          let refreshToken :=
            jwt_sign app (basePayload refresh)
              (Some (mkSignOptions
                       (Some (JWT_REFRESH_TTL (config app)))
                       (Some (JWT_REFRESH_SECRET (config app))))) in
          call (UpdateOne (IdIs (_id user))
                   (mkLoginStamp loginTime loginTime)) ;;
          Ret (LoggedIn
                 (mkLoginReply accessToken refreshToken
                    (mkLoginUser (toHexString (_id user)) (email user)
                       (status user) (hexOf (orgId user))
                       (hexOf (roleId user)) (hexOf (designationId user))
                       (mobileNumber user) (toISOString loginTime))))
    end.

End Handler.

(** *** Descriptions used to state the properties of Part II *)
Section Descriptions.
Context {L : Libraries}.

(** The user the two-step lookup of the handler ends with. *)
Definition lookupResult (users : Users) (trimmedEmail : string)
  : option UserDocument :=
  match findOne (EmailIs trimmedEmail) users with
  | Some u => Some u
  | None =>
      if negb (String.eqb trimmedEmail "")
      then findOne (EmailRegExp ("^" ++ escapeForRegex trimmedEmail ++ "$") "i") users
      else None
  end.

(** The storage calls of the lookup; none of them writes. *)
Definition lookupCalls (users : Users) (trimmedEmail : string)
  : list (Event Call Users) :=
  (FindOne (EmailIs trimmedEmail), users)
  :: match findOne (EmailIs trimmedEmail) users with
     | Some _ => []
     | None =>
         if negb (String.eqb trimmedEmail "")
         then [ (FindOne (EmailRegExp ("^" ++ escapeForRegex trimmedEmail ++ "$") "i"),
                 users) ]
         else []
     end.

(** The reply object of a successful login of [u]. *)
Definition replyFor (app : App) (loginTime : Date) (uuid : string)
  (u : UserDocument) : LoginReply :=
  let basePayload := fun kind =>
    mkJwtPayload (toHexString (_id u)) (email u) (hexOf (orgId u))
      (hexOf (roleId u)) (hexOf (designationId u)) uuid kind in
  mkLoginReply
    (jwt_sign app (basePayload access) None)
    (jwt_sign app (basePayload refresh)
       (Some (mkSignOptions (Some (JWT_REFRESH_TTL (config app)))
                            (Some (JWT_REFRESH_SECRET (config app))))))
    (mkLoginUser (toHexString (_id u)) (email u) (status u) (hexOf (orgId u))
       (hexOf (roleId u)) (hexOf (designationId u)) (mobileNumber u)
       (toISOString loginTime)).

End Descriptions.

End Auth.


(** ** Organisations: listing, service calls in sequence, and the routes *)
Module OrganisationMore.
Import JsText Effects Effects.Notations Lib Organisation.

(** *** [findAll] (organisation.repository.ts) and [list]
    (organisation.service.ts) *)

(** [status ? { status } : {}] *)
Definition statusFilter (status : option OrganisationStatus)
  (d : OrganisationDocument) : bool :=
  match status with
  | None => true
  | Some wanted =>
      match wanted, Organisation.status d with
      | active, active | inactive, inactive | archived, archived => true
      | _, _ => false
      end
  end.

(** [sort({ createdAt: -1 })].  Documents created at the same instant keep
    their natural order here; the storage engine leaves their order open,
    and no property below depends on it. *)
Fixpoint insertNewestFirst (d : OrganisationDocument)
  (sorted : list OrganisationDocument) : list OrganisationDocument :=
  match sorted with
  | [] => [d]
  | x :: rest =>
      if Z.leb (createdAt x) (createdAt d) then d :: x :: rest
      else x :: insertNewestFirst d rest
  end.

Definition sortNewestFirst (docs : list OrganisationDocument)
  : list OrganisationDocument :=
  fold_right insertNewestFirst [] docs.

Definition findAll (status : option OrganisationStatus) (st : Repository.Store)
  : list OrganisationDocument :=
  sortNewestFirst (filter (statusFilter status) st).

(** [a] was created no earlier than [b]. *)
Definition newerFirst (a b : OrganisationDocument) : Prop :=
  (createdAt b <= createdAt a)%Z.

Inductive ListCall : Type :=
| FindAll (status : option OrganisationStatus).

Definition ListAnswer (c : ListCall) : Type := list OrganisationDocument.

Definition performList : Handler ListCall ListAnswer Repository.Store :=
  fun op st => match op with FindAll status => Some (findAll status st, st) end.

(** [OrganisationService.list], kept in a module of its own so that the
    name does not hide the type of lists. *)
Module Service.
Definition list {L : Libraries} (status : option OrganisationStatus)
  : Prog ListCall ListAnswer OrganisationError
      (Datatypes.list OrganisationResponse) :=
  organisations <- await (FindAll status) ;;
  Ret (map toOrganisationResponse organisations).
End Service.

Section WithLibraries.
Context {L : Libraries}.

(** *** Service calls made one after the other, on any input *)
Inductive ServiceCall : Type :=
| CallGetById (id : string)
| CallCreate (now : Date) (input : CreateOrganisationInput)
| CallUpdate (now : Date) (id : string) (input : UpdateOrganisationInput)
| CallDelete (id : string).

Definition after (insertedId : ObjectId) (c : ServiceCall)
  (st : Repository.Store) : Repository.Store :=
  match c with
  | CallGetById id => snd (run (Repository.perform insertedId) (getById id) st)
  | CallCreate now input =>
      snd (run (Repository.perform insertedId) (create now input) st)
  | CallUpdate now id input =>
      snd (run (Repository.perform insertedId) (update now id input) st)
  | CallDelete id => snd (run (Repository.perform insertedId) (delete id) st)
  end.

Inductive serviceReachable : Repository.Store -> Prop :=
| serviceReachable_empty : serviceReachable []
| serviceReachable_after insertedId c st :
    serviceReachable st -> serviceReachable (after insertedId c st).

(** The same, with every call taken from the calls that [allowed] lets
    through. *)
Inductive reachableBy (allowed : ServiceCall -> bool) : Repository.Store -> Prop :=
| reachableBy_empty : reachableBy allowed []
| reachableBy_after insertedId c st :
    reachableBy allowed st ->
    allowed c = true ->
    reachableBy allowed (after insertedId c st).

(** Every slug that the call hands to the service is accepted by the
    kebab-case pattern (the pattern that the body schemas of
    organisation.routes.ts put on [slug]). *)
Definition slugsMatch (c : ServiceCall) : bool :=
  match c with
  | CallCreate _ input => test kebabPattern (in_slug input)
  | CallUpdate _ _ input => optionOk (test kebabPattern) (upd_slug input)
  | CallGetById _ | CallDelete _ => true
  end.

(** *** [create] on the object that [parse] returned

    The POST handler hands the parsed object to [service.create].  [create]
    reads the [name], [slug] and [status] keys of its argument; a key that
    the object does not have reads as [undefined], and
    [normaliseSlug(undefined)] throws a [TypeError] at [slug.trim()], before
    the first awaited call. *)
Record CreateArgument : Type := mkCreateArgument {
  arg_name : string;
  arg_slug : option string;
  arg_status : option OrganisationStatus
}.

(** The parsed object has the keys [name], [code] and [status]. *)
Definition ofParsed (body : ParsedOrganisation) : CreateArgument :=
  mkCreateArgument (parsed_name body) None (Some (parsed_status body)).

(** What a call of the service can throw. *)
Inductive ServiceThrow : Type :=
| Domain (e : OrganisationError)
| TypeError.

Fixpoint raising {A} (p : M A)
  : Prog Repository.Call Repository.Answer ServiceThrow A :=
  match p with
  | Ret a => Ret a
  | Throw e => Throw (Domain e)
  | Await op k => Await op (fun x => raising (k x))
  end.

Definition createOn (now : Date) (input : CreateArgument)
  : Prog Repository.Call Repository.Answer ServiceThrow OrganisationResponse :=
  match arg_slug input with
  | None => Throw TypeError
  | Some slug =>
      raising (create now
                 (mkCreateOrganisationInput (arg_name input) slug (arg_status input)))
  end.

(** *** Routes (organisation.routes.ts) *)

(** The errors of [app.httpErrors] the routes throw. *)
Inductive HttpError : Type :=
| BadRequest (message : string)
| NotFound (message : string)
| Conflict (message : string).

Definition statusCode (e : HttpError) : nat :=
  match e with
  | BadRequest _ => 400
  | NotFound _ => 404
  | Conflict _ => 409
  end.

Definition httpMessage (e : HttpError) : string :=
  match e with
  | BadRequest m => m
  | NotFound m => m
  | Conflict m => m
  end.

(** What a [try] block of a handler can catch: an error of the service, the
    error of a refused [parse], a [TypeError], or an exception of the
    storage driver. *)
Inductive Caught : Type :=
| ServiceError (e : OrganisationError)
| ZodError
| UncaughtTypeError
| StorageError.

(** What the handler throws in the end. *)
Inductive Thrown : Type :=
| Http (e : HttpError)
| Unmapped (cause : Caught).

Definition mapServiceError (error : Caught) : Thrown :=
  match error with
  | ServiceError InvalidOrganisationIdError =>
      Http (BadRequest (message InvalidOrganisationIdError))
  | ServiceError OrganisationNotFoundError =>
      Http (NotFound (message OrganisationNotFoundError))
  | ServiceError OrganisationSlugTakenError =>
      Http (Conflict (message OrganisationSlugTakenError))
  | ZodError => Unmapped ZodError
  | UncaughtTypeError => Unmapped UncaughtTypeError
  | StorageError => Unmapped StorageError
  end.

(** A handler replies with a status code and a payload, or throws. *)
Inductive Outcome (A : Type) : Type :=
| Replied (code : nat) (payload : A)
| Threw (t : Thrown).

Arguments Replied {A} code payload.
Arguments Threw {A} t.

(** [try { ... return payload } catch (error) { return mapServiceError(error) }]
    around a service call that ended with [r]. *)
Definition answer {A B} (code : nat) (payload : A -> B)
  (r : Result OrganisationError A) : Outcome B :=
  match r with
  | Returned a => Replied code (payload a)
  | Raised e => Threw (mapServiceError (ServiceError e))
  | DriverError => Threw (mapServiceError StorageError)
  end.

(** GET / : [{ data: organisations, count: organisations.length }] *)
Definition listRoute (status : option OrganisationStatus) (st : Repository.Store)
  : Outcome (list OrganisationResponse * nat) * Repository.Store :=
  let '(r, st') := run performList (Service.list status) st in
  (answer 200 (fun organisations => (organisations, length organisations)) r, st').

(** GET /:id *)
Definition getRoute (insertedId : ObjectId) (id : string) (st : Repository.Store)
  : Outcome OrganisationResponse * Repository.Store :=
  let '(r, st') := run (Repository.perform insertedId) (getById id) st in
  (answer 200 (fun organisation => organisation) r, st').

(** POST / : the handler, run on the body that the framework hands it.
    [createOrganisationSchema.parse(request.body)], then
    [service.create(body)] on the parsed object, all inside the [try]. *)
Definition postHandler (insertedId : ObjectId) (now : Date) (body : Body)
  (st : Repository.Store) : Outcome OrganisationResponse * Repository.Store :=
  match createOrganisationSchema body with
  | None => (Threw (mapServiceError ZodError), st)
  | Some parsed =>
      match run (Repository.perform insertedId) (createOn now (ofParsed parsed)) st with
      | (Returned organisation, st') => (Replied 201 organisation, st')
      | (Raised (Domain e), st') => (Threw (mapServiceError (ServiceError e)), st')
      | (Raised TypeError, st') => (Threw (mapServiceError UncaughtTypeError), st')
      | (DriverError, st') => (Threw (mapServiceError StorageError), st')
      end
  end.

(** POST / : the route.  Before the handler runs, the framework checks
    the body against [createOrganisationBodySchema] and answers 400 itself
    when the check fails.  The check is the framework's (with its coercions
    and its treatment of additional properties): [validate body] is the
    body that the handler is given, or [None] when the framework answers
    400. *)
Inductive RouteOutcome (A : Type) : Type :=
| RefusedBody
| Handled (o : Outcome A).

Arguments RefusedBody {A}.
Arguments Handled {A} o.

Definition postRoute (validate : Body -> option Body) (insertedId : ObjectId)
  (now : Date) (body : Body) (st : Repository.Store)
  : RouteOutcome OrganisationResponse * Repository.Store :=
  match validate body with
  | None => (RefusedBody, st)
  | Some accepted =>
      let '(o, st') := postHandler insertedId now accepted st in
      (Handled o, st')
  end.

(** PATCH /:id : the handler, run on the body that the framework hands
    it.  [update] reads the [name], [slug] and [status] keys of the parsed
    object, which has the keys [name], [code] and [status]: its slug reads
    as [undefined]. *)
Definition updateArgument (parsed : ParsedUpdate) : UpdateOrganisationInput :=
  mkUpdateOrganisationInput (partial_name parsed) None (partial_status parsed).

Definition patchHandler (absentStatus : option OrganisationStatus)
  (insertedId : ObjectId) (now : Date) (id : string) (body : Body)
  (st : Repository.Store) : Outcome OrganisationResponse * Repository.Store :=
  match updateOrganisationSchema absentStatus body with
  | None => (Threw (mapServiceError ZodError), st)
  | Some parsed =>
      let '(r, st') :=
        run (Repository.perform insertedId)
          (update now id (updateArgument parsed)) st in
      (answer 200 (fun organisation => organisation) r, st')
  end.

(** PATCH /:id : the route, with the framework's check of the body against
    [updateOrganisationBodySchema] in front of the handler. *)
Definition patchRoute (validate : Body -> option Body)
  (absentStatus : option OrganisationStatus) (insertedId : ObjectId)
  (now : Date) (id : string) (body : Body) (st : Repository.Store)
  : RouteOutcome OrganisationResponse * Repository.Store :=
  match validate body with
  | None => (RefusedBody, st)
  | Some accepted =>
      let '(o, st') := patchHandler absentStatus insertedId now id accepted st in
      (Handled o, st')
  end.

(** DELETE /:id *)
Definition deleteRoute (insertedId : ObjectId) (id : string)
  (st : Repository.Store) : Outcome unit * Repository.Store :=
  let '(r, st') := run (Repository.perform insertedId) (delete id) st in
  (answer 204 (fun _ => tt) r, st').

End WithLibraries.

Arguments Replied {A} code payload.
Arguments Threw {A} t.
Arguments RefusedBody {A}.
Arguments Handled {A} o.

(** The collection invariant that holds whatever the inputs of the service
    calls were: distinct identifiers, distinct slugs, every slug a fixed
    point of the slug normalisation, every name trimmed. *)
Definition normalised (st : Repository.Store) : Prop :=
  NoDup (map _id st)
  /\ NoDup (map slug st)
  /\ Forall (fun d => toLowerCase (trim (slug d)) = slug d
                      /\ trim (name d) = name d) st.

(** A word of a slug: a non-empty run of [[a-z0-9]]. *)
Definition isWord (w : string) : Prop :=
  w <> EmptyString /\ forallChars lowerAlnum w = true.

(** The words [ws], each preceded by a hyphen. *)
Fixpoint hyphenated (ws : Datatypes.list string) : string :=
  match ws with
  | [] => EmptyString
  | w :: rest => ("-" ++ w ++ hyphenated rest)%string
  end.

(** A string that does not begin with white space. *)
Definition startsClean (s : string) : Prop :=
  match s with
  | EmptyString => True
  | String c _ => isWhiteSpace c = false
  end.

(** A string made of white space only. *)
Definition isBlank (s : string) : bool := forallChars isWhiteSpace s.

End OrganisationMore.

(** ** Login: the inverse of the pattern escape *)
Module AuthMore.
Import Auth.

(** Reads an escaped pattern back: a backslash stands for the character
    that follows it. *)
Fixpoint unescape (pattern : string) : string :=
  match pattern with
  | EmptyString => EmptyString
  | String c rest =>
      if Ascii.eqb c "\"%char then
        match rest with
        | EmptyString => String c EmptyString
        | String c' rest' => String c' (unescape rest')
        end
      else String c (unescape rest)
  end.

Fixpoint countChars (p : ascii -> bool) (s : string) : nat :=
  match s with
  | EmptyString => 0
  | String c rest => (if p c then 1 else 0) + countChars p rest
  end.

End AuthMore.

(** ** Sample data

    A small instance of the library interface and a few documents, used in
    the worked examples of Part II. *)
Module Sample.
Import JsText Lib.

Definition isHexDigit (c : ascii) : bool :=
  let n := nat_of_ascii c in
  (Nat.leb 48 n && Nat.leb n 57) || (Nat.leb 97 n && Nat.leb n 102)
  || (Nat.leb 65 n && Nat.leb n 70).

Definition sampleLibraries : Libraries := {|
  ObjectId_isValid := fun s => Nat.eqb (String.length s) 24 && forallChars isHexDigit s;
  ObjectId_new := fun s => mkObjectId (toLowerCase s);
  toISOString := fun d => if Z.eqb d 0 then "1970-01-01T00:00:00.000Z" else "later";
  bcrypt_compare := fun password hash => String.eqb ("$2a$" ++ password) hash;
  regexMatches := fun source flags subject =>
    String.eqb (toLowerCase source)
      (toLowerCase ("^" ++ Auth.escapeForRegex subject ++ "$"))
|}.

Definition oidA : ObjectId := mkObjectId "65f000000000000000000001".
Definition oidB : ObjectId := mkObjectId "65f000000000000000000002".

Definition orgA : Organisation.OrganisationDocument :=
  Organisation.mkOrganisationDocument oidA "Acme" "acme" Organisation.active 0%Z 0%Z.

Definition orgB : Organisation.OrganisationDocument :=
  Organisation.mkOrganisationDocument oidB "Beta" "beta" Organisation.active 0%Z 0%Z.

Definition ada : Auth.UserDocument :=
  Auth.mkUserDocument oidA 0%Z 0%Z None None None
    "ada@example.com" "$2a$correct horse" Auth.active None None.

Definition bob : Auth.UserDocument :=
  Auth.mkUserDocument oidB 0%Z 0%Z None None None
    "bob@example.com" "$2a$battery staple" Auth.invited None None.

Definition sampleApp : Auth.App :=
  Auth.mkApp true (Auth.mkConfig "access-secret" "refresh-secret" "15m" "7d").

(** A configuration that gives both kinds of token one secret and one
    lifetime; the environment schema accepts it. *)
Definition sharedSecretApp : Auth.App :=
  Auth.mkApp true (Auth.mkConfig "one-secret" "one-secret" "1h" "1h").

End Sample.

(* ================================================================== *)
(** * Part II: properties                                              *)
(* ================================================================== *)

Module JsTextFacts.
Import JsText.

Example kebabPattern_accepts :
  map (test kebabPattern) ["acme"; "acme-ltd-2"; "7"] = [true; true; true].
Proof. reflexivity. Qed.

Example kebabPattern_rejects :
  map (test kebabPattern) [""; "Acme"; "a--b"; "-a"; "a-"; "a b"; " acme"]
  = [false; false; false; false; false; false; false].
Proof. reflexivity. Qed.

Example trim_toLowerCase_example :
  toLowerCase (trim "  Acme-LTD  ") = "acme-ltd".
Proof. reflexivity. Qed.

Lemma void_not_nullable r : void r = true -> nullable r = false.
Proof.
  induction r; simpl; intros Hv; try discriminate; auto.
  - apply orb_true_iff in Hv as [Hv | Hv].
    + rewrite (IHr1 Hv). reflexivity.
    + rewrite (IHr2 Hv). apply andb_false_r.
  - apply andb_true_iff in Hv as [H1 H2].
    rewrite (IHr1 H1), (IHr2 H2). reflexivity.
Qed.

Lemma void_deriv c r : void r = true -> void (deriv c r) = true.
Proof.
  induction r; simpl; intros Hv; try discriminate; auto.
  - apply orb_true_iff in Hv as [Hv | Hv].
    + rewrite (void_not_nullable _ Hv). simpl. rewrite (IHr1 Hv). reflexivity.
    + destruct (nullable r1); simpl; rewrite Hv, ?(IHr2 Hv), ?orb_true_r; reflexivity.
  - apply andb_true_iff in Hv as [H1 H2].
    rewrite (IHr1 H1), (IHr2 H2). reflexivity.
Qed.

Lemma void_rejects s : forall r, void r = true -> test r s = false.
Proof.
  induction s as [| c s IH]; simpl; intros r Hv.
  - apply void_not_nullable; assumption.
  - apply IH, void_deriv; assumption.
Qed.

Lemma deriv_outside_void P c r :
  classesWithin P r -> P c = false -> void (deriv c r) = true.
Proof.
  intros Hr Hc. induction r; simpl in *; auto.
  - destruct (p c) eqn:Hp; [ | reflexivity ].
    rewrite (Hr c Hp) in Hc. discriminate.
  - destruct Hr as [H1 H2].
    destruct (nullable r1); simpl; rewrite (IHr1 H1), ?(IHr2 H2); reflexivity.
  - destruct Hr as [H1 H2]. rewrite (IHr1 H1), (IHr2 H2). reflexivity.
  - rewrite (IHr Hr). reflexivity.
Qed.

Lemma classesWithin_deriv P c r :
  classesWithin P r -> classesWithin P (deriv c r).
Proof.
  induction r; simpl; intros Hr; auto.
  - destruct (p c); exact I.
  - destruct Hr as [H1 H2]. destruct (nullable r1); simpl; auto.
  - destruct Hr as [H1 H2]. auto.
Qed.

Lemma test_forallChars P s :
  forall r, classesWithin P r -> test r s = true -> forallChars P s = true.
Proof.
  induction s as [| c s IH]; simpl; intros r Hr Ht; [ reflexivity | ].
  destruct (P c) eqn:Hc; simpl.
  - apply (IH (deriv c r)); [ apply classesWithin_deriv | ]; assumption.
  - rewrite (void_rejects s _ (deriv_outside_void P c r Hr Hc)) in Ht.
    discriminate.
Qed.

Lemma kebabPattern_classes : classesWithin kebabChar kebabPattern.
Proof.
  unfold kebabChar; simpl; repeat split; intros c Hc; rewrite Hc;
    auto using orb_true_r.
Qed.

Lemma kebabChar_plain c :
  kebabChar c = true -> isWhiteSpace c = false /\ lowerChar c = c.
Proof.
  destruct c as [b0 b1 b2 b3 b4 b5 b6 b7].
  destruct b0, b1, b2, b3, b4, b5, b6, b7; vm_compute;
    intros H; try discriminate H; split; reflexivity.
Qed.

Lemma trimStart_plain s :
  forallChars (fun c => negb (isWhiteSpace c)) s = true -> trimStart s = s.
Proof.
  destruct s as [| c r]; simpl; [ reflexivity | ].
  intros H. apply andb_true_iff in H as [Hc _].
  destruct (isWhiteSpace c); [ discriminate | reflexivity ].
Qed.

Lemma trimEnd_plain s :
  forallChars (fun c => negb (isWhiteSpace c)) s = true -> trimEnd s = s.
Proof.
  induction s as [| c r IH]; simpl; [ reflexivity | ].
  intros H. apply andb_true_iff in H as [Hc Hr].
  rewrite (IH Hr). destruct r; [ | reflexivity ].
  destruct (isWhiteSpace c); [ discriminate | reflexivity ].
Qed.

Lemma forallChars_impl (p q : ascii -> bool) s :
  (forall c, p c = true -> q c = true) ->
  forallChars p s = true -> forallChars q s = true.
Proof.
  intros Hpq. induction s as [| c r IH]; simpl; [ reflexivity | ].
  intros H. apply andb_true_iff in H as [Hc Hr].
  rewrite (Hpq c Hc), (IH Hr). reflexivity.
Qed.

Lemma toLowerCase_plain s :
  forallChars kebabChar s = true -> toLowerCase s = s.
Proof.
  induction s as [| c r IH]; simpl; [ reflexivity | ].
  intros H. apply andb_true_iff in H as [Hc Hr].
  rewrite (IH Hr). destruct (kebabChar_plain c Hc) as [_ ->]. reflexivity.
Qed.

(** A string accepted by the kebab-case pattern is left alone by [trim]
    and by [toLowerCase]. *)
Lemma kebab_fixed s :
  test kebabPattern s = true -> toLowerCase (trim s) = s.
Proof.
  intros Ht.
  pose proof (test_forallChars kebabChar s _ kebabPattern_classes Ht) as Hk.
  assert (Hw : forallChars (fun c => negb (isWhiteSpace c)) s = true).
  { apply (forallChars_impl kebabChar); [ | assumption ].
    intros c Hc. destruct (kebabChar_plain c Hc) as [-> _]. reflexivity. }
  unfold trim. rewrite (trimStart_plain s Hw), (trimEnd_plain s Hw).
  apply toLowerCase_plain; assumption.
Qed.

End JsTextFacts.

Module LibFacts.
Import Lib.

Lemma equals_eq (a b : ObjectId) : equals a b = true <-> a = b.
Proof.
  destruct a as [x], b as [y]; unfold equals; simpl.
  rewrite String.eqb_eq. split; intros E; [ subst | injection E ]; auto.
Qed.

Lemma equals_refl (a : ObjectId) : equals a a = true.
Proof. apply equals_eq; reflexivity. Qed.

End LibFacts.

Module ListFacts.

(** The first match of [find], with the documents before and after it. *)
Lemma find_first {A} (p : A -> bool) (l : list A) (d : A) :
  find p l = Some d ->
  exists l1 l2, l = l1 ++ d :: l2 /\ p d = true
                /\ (forall x, In x l1 -> p x = false).
Proof.
  induction l as [| a l IH]; simpl; [ discriminate | ].
  destruct (p a) eqn:Hpa.
  - intros E. injection E as <-. exists [], l. simpl. repeat split; tauto.
  - intros E. destruct (IH E) as (l1 & l2 & -> & Hd & Hl1).
    exists (a :: l1), l2. simpl. repeat split; auto.
    intros x [<- | Hx]; auto.
Qed.

Lemma find_after_update {A} (p : A -> bool) l1 (d : A) l2 :
  p d = true -> (forall x, In x l1 -> p x = false) ->
  find p (l1 ++ d :: l2) = Some d.
Proof.
  intros Hd. induction l1 as [| a l1 IH]; simpl; intros Hl1.
  - rewrite Hd. reflexivity.
  - rewrite (Hl1 a (or_introl eq_refl)). apply IH. auto.
Qed.

Lemma NoDup_replace {A} (l1 l2 : list A) (x y : A) :
  NoDup (l1 ++ x :: l2) ->
  y = x \/ ~ In y (l1 ++ x :: l2) ->
  NoDup (l1 ++ y :: l2).
Proof.
  intros Hnd Hy. apply NoDup_remove in Hnd as [Hnd Hx].
  apply (NoDup_Add (Add_app y l1 l2)). split; [ assumption | ].
  destruct Hy as [-> | Hy]; [ assumption | ].
  intros Hin. apply Hy. apply in_app_or in Hin as [Hin | Hin];
    apply in_or_app; [ left | right; right ]; assumption.
Qed.

Lemma NoDup_snoc {A} (l : list A) (x : A) :
  NoDup l -> ~ In x l -> NoDup (l ++ [x]).
Proof.
  intros Hnd Hx. apply NoDup_app; [ assumption | | ].
  - constructor; [ intros [] | constructor ].
  - intros a Ha [<- | []]. contradiction.
Qed.

Lemma NoDup_map_eq {A B} (f : A -> B) (l : list A) (a b : A) :
  NoDup (map f l) -> In a l -> In b l -> f a = f b -> a = b.
Proof.
  induction l as [| c l IH]; simpl; intros Hnd Ha Hb E; [ contradiction | ].
  apply NoDup_cons_iff in Hnd as [Hc Hnd].
  destruct Ha as [-> | Ha], Hb as [-> | Hb]; auto.
  - destruct Hc. rewrite E. apply in_map. assumption.
  - destruct Hc. rewrite <- E. apply in_map. assumption.
Qed.

End ListFacts.

Module OrganisationFacts.
Import JsText Effects Lib Organisation.
Import Repository (Store, hasId, hasSlug, findById, findBySlug, perform).
Import LibFacts ListFacts.

Local Arguments Repository.findById : simpl never.
Local Arguments Repository.findBySlug : simpl never.
Local Arguments Repository.create : simpl never.
Local Arguments Repository.updateById : simpl never.
Local Arguments Repository.deleteById : simpl never.
Local Arguments interfere {S} !others s /.

Lemma findBySlug_none s st :
  findBySlug s st = None <-> (forall d, In d st -> slug d <> s).
Proof.
  unfold findBySlug. split.
  - intros Hn d Hd E. pose proof (find_none _ _ Hn d Hd) as Hf.
    unfold hasSlug in Hf. rewrite E, String.eqb_refl in Hf. discriminate.
  - intros Hall. destruct (find (hasSlug s) st) as [d |] eqn:Hf; [ | reflexivity ].
    apply find_some in Hf as [Hd Hs]. unfold hasSlug in Hs.
    apply String.eqb_eq in Hs. destruct (Hall d Hd Hs).
Qed.

Lemma findBySlug_some s st d :
  findBySlug s st = Some d -> In d st /\ slug d = s.
Proof.
  unfold findBySlug. intros Hf. apply find_some in Hf as [Hd Hs].
  split; [ assumption | apply String.eqb_eq; assumption ].
Qed.

Lemma findById_none id st :
  findById id st = None <-> (forall d, In d st -> _id d <> id).
Proof.
  unfold findById. split.
  - intros Hn d Hd E. pose proof (find_none _ _ Hn d Hd) as Hf.
    unfold hasId in Hf. rewrite E, equals_refl in Hf. discriminate.
  - intros Hall. destruct (find (hasId id) st) as [d |] eqn:Hf; [ | reflexivity ].
    apply find_some in Hf as [Hd Hs]. unfold hasId in Hs.
    apply equals_eq in Hs. destruct (Hall d Hd Hs).
Qed.

Lemma findById_some id st d :
  findById id st = Some d -> In d st /\ _id d = id.
Proof.
  unfold findById. intros Hf. apply find_some in Hf as [Hd Hs].
  split; [ assumption | apply equals_eq; assumption ].
Qed.

Lemma existsb_hasId_false id st :
  existsb (hasId id) st = false <-> (forall d, In d st -> _id d <> id).
Proof.
  split.
  - intros He d Hd E.
    assert (Ht : existsb (hasId id) st = true).
    { apply existsb_exists. exists d. split; [ assumption | ].
      unfold hasId. rewrite E. apply equals_refl. }
    congruence.
  - intros Hall. destruct (existsb (hasId id) st) eqn:He; [ | reflexivity ].
    apply existsb_exists in He as (d & Hd & Hh).
    apply equals_eq in Hh. destruct (Hall d Hd Hh).
Qed.

Lemma findOneAndUpdate_first p f l1 d l2 :
  p d = true -> (forall x, In x l1 -> p x = false) ->
  Repository.findOneAndUpdate p f (l1 ++ d :: l2) = (Some (f d), l1 ++ f d :: l2).
Proof.
  intros Hd. induction l1 as [| a l1 IH]; simpl; intros Hl1.
  - rewrite Hd. reflexivity.
  - rewrite (Hl1 a (or_introl eq_refl)).
    rewrite IH; [ reflexivity | auto ].
Qed.

Lemma findOneAndUpdate_none p f l :
  find p l = None -> Repository.findOneAndUpdate p f l = (None, l).
Proof.
  induction l as [| a l IH]; simpl; [ reflexivity | ].
  destruct (p a); [ discriminate | ].
  intros E. rewrite (IH E). reflexivity.
Qed.

Lemma deleteOne_first p l1 d l2 :
  p d = true -> (forall x, In x l1 -> p x = false) ->
  Repository.deleteOne p (l1 ++ d :: l2) = (1, l1 ++ l2).
Proof.
  intros Hd. induction l1 as [| a l1 IH]; simpl; intros Hl1.
  - rewrite Hd. reflexivity.
  - rewrite (Hl1 a (or_introl eq_refl)).
    rewrite IH; [ reflexivity | auto ].
Qed.

Lemma deleteOne_none p l :
  find p l = None -> Repository.deleteOne p l = (0, l).
Proof.
  induction l as [| a l IH]; simpl; [ reflexivity | ].
  destruct (p a); [ discriminate | ].
  intros E. rewrite (IH E). reflexivity.
Qed.

Lemma updateById_found id payload st d :
  findById id st = Some d ->
  exists l1 l2, st = l1 ++ d :: l2
    /\ (forall x, In x l1 -> _id x <> id)
    /\ Repository.updateById id payload st
       = (Some (Repository.applySet payload d),
          l1 ++ Repository.applySet payload d :: l2).
Proof.
  unfold findById, Repository.updateById. intros Hf.
  destruct (find_first _ _ _ Hf) as (l1 & l2 & -> & Hd & Hl1).
  exists l1, l2. repeat split.
  - intros x Hx E. specialize (Hl1 x Hx). unfold hasId in Hl1.
    rewrite E, equals_refl in Hl1. discriminate.
  - apply findOneAndUpdate_first; assumption.
Qed.

Lemma updateById_absent id payload st :
  findById id st = None -> Repository.updateById id payload st = (None, st).
Proof. apply findOneAndUpdate_none. Qed.

Lemma deleteById_found id st d :
  findById id st = Some d ->
  exists l1 l2, st = l1 ++ d :: l2
    /\ Repository.deleteById id st = (true, l1 ++ l2).
Proof.
  unfold findById, Repository.deleteById. intros Hf.
  destruct (find_first _ _ _ Hf) as (l1 & l2 & -> & Hd & Hl1).
  exists l1, l2. split; [ reflexivity | ].
  rewrite (deleteOne_first _ _ _ _ Hd Hl1). reflexivity.
Qed.

Lemma deleteById_absent id st :
  findById id st = None -> Repository.deleteById id st = (false, st).
Proof.
  unfold findById, Repository.deleteById. intros Hf.
  rewrite (deleteOne_none _ _ Hf). reflexivity.
Qed.

Section WithLibraries.
Context {L : Libraries}.

(** What a [create] call that runs alone does, for any input. *)
Lemma create_run insertedId now input st :
  run (perform insertedId) (create now input) st =
  match findBySlug (normaliseSlug (in_slug input)) st with
  | Some _ => (Raised OrganisationSlugTakenError, st)
  | None =>
      match Repository.create insertedId
              (mkCreateOrganisationDoc (normaliseName (in_name input))
                 (normaliseSlug (in_slug input))
                 (match in_status input with Some s => s | None => active end)
                 now now) st with
      | Some (d, st') => (Returned (toOrganisationResponse d), st')
      | None => (DriverError, st)
      end
  end.
Proof.
  unfold run, create. cbn.
  destruct (findBySlug _ st); cbn; [ reflexivity | ].
  destruct (Repository.create _ _ st) as [[d st'] |]; reflexivity.
Qed.

(** What an [update] call that runs alone does. *)
Lemma update_run insertedId now id input st :
  ObjectId_isValid id = true ->
  run (perform insertedId) (update now id input) st =
  match findById (ObjectId_new id) st with
  | None => (Raised OrganisationNotFoundError, st)
  | Some org =>
      let write :=
        written (Repository.updateById (_id org) (updatePayload now input) st) in
      match upd_slug input with
      | None => write
      | Some s =>
          if String.eqb (normaliseSlug s) (slug org) then write
          else
            match findBySlug (normaliseSlug s) st with
            | Some e =>
                if equals (_id e) (_id org) then write
                else (Raised OrganisationSlugTakenError, st)
            | None => write
            end
      end
  end.
Proof.
  intros Hvalid. unfold run, update, parseObjectId, checkSlugFree, updatePayload.
  rewrite Hvalid. cbn.
  destruct (findById (ObjectId_new id) st) as [org |]; cbn; [ | reflexivity ].
  destruct (upd_slug input) as [s |]; cbn.
  - destruct (String.eqb (normaliseSlug s) (slug org)); cbn.
    + destruct (Repository.updateById _ _ st) as [[u |] st']; reflexivity.
    + destruct (findBySlug (normaliseSlug s) st) as [e |]; cbn.
      * destruct (equals (_id e) (_id org)); cbn; [ | reflexivity ].
        destruct (Repository.updateById _ _ st) as [[u |] st']; reflexivity.
      * destruct (Repository.updateById _ _ st) as [[u |] st']; reflexivity.
  - destruct (Repository.updateById _ _ st) as [[u |] st']; reflexivity.
Qed.

Lemma getById_run insertedId id st :
  run (perform insertedId) (getById id) st =
  if ObjectId_isValid id then
    match findById (ObjectId_new id) st with
    | Some org => (Returned (toOrganisationResponse org), st)
    | None => (Raised OrganisationNotFoundError, st)
    end
  else (Raised InvalidOrganisationIdError, st).
Proof.
  unfold run, getById, parseObjectId.
  destruct (ObjectId_isValid id); cbn; [ | reflexivity ].
  destruct (findById (ObjectId_new id) st); reflexivity.
Qed.

Lemma delete_run insertedId id st :
  run (perform insertedId) (delete id) st =
  if ObjectId_isValid id then
    let '(deleted, st') := Repository.deleteById (ObjectId_new id) st in
    (if deleted then Returned tt else Raised OrganisationNotFoundError, st')
  else (Raised InvalidOrganisationIdError, st).
Proof.
  unfold run, delete, parseObjectId.
  destruct (ObjectId_isValid id); cbn; [ | reflexivity ].
  destruct (Repository.deleteById (ObjectId_new id) st) as [[|] st']; reflexivity.
Qed.

Lemma update_invalid_id insertedId now id input st :
  ObjectId_isValid id = false ->
  run (perform insertedId) (update now id input) st
  = (Raised InvalidOrganisationIdError, st).
Proof.
  intros Hinvalid. unfold run, update, parseObjectId.
  rewrite Hinvalid. reflexivity.
Qed.

(** X19.  [create] on an object that carries a name and a slug, whatever
    they are: the view carries the trimmed, lower-cased slug and the trimmed
    name; the call fails with the slug-taken error exactly when a stored
    organisation has the normalised slug; the stored status is the one
    handed in, or [active] when none was; the two timestamps of the view are
    equal; and when the slug is free and the generated identifier unused
    the call returns. *)
Theorem create_on_slug_input insertedId now input st :
  let slug' := toLowerCase (trim (in_slug input)) in
  let status' := match in_status input with Some s => s | None => active end in
  let out := run (perform insertedId) (create now input) st in
  (fst out = Raised OrganisationSlugTakenError <->
     exists d, In d st /\ slug d = slug')
  /\ (forall view, fst out = Returned view ->
        res_slug view = slug'
        /\ res_name view = trim (in_name input)
        /\ res_status view = status'
        /\ res_createdAt view = res_updatedAt view
        /\ exists d, snd out = st ++ [d]
             /\ _id d = insertedId /\ slug d = slug'
             /\ name d = trim (in_name input) /\ status d = status'
             /\ createdAt d = now /\ updatedAt d = now)
  /\ ((forall d, In d st -> slug d <> slug') ->
      (forall d, In d st -> _id d <> insertedId) ->
      exists view, fst out = Returned view).
Proof.
  intros slug' status' out.
  subst out. rewrite create_run.
  unfold normaliseSlug, normaliseName. fold slug'. fold status'.
  destruct (findBySlug slug' st) as [e |] eqn:Hfind.
  - apply findBySlug_some in Hfind as [He Hes]. simpl.
    split; [ | split ].
    + split; [ intros _; exists e; auto | reflexivity ].
    + intros view Hv. discriminate Hv.
    + intros Hfree _. destruct (Hfree e He Hes).
  - pose proof (proj1 (findBySlug_none _ _) Hfind) as Hfree.
    unfold Repository.create.
    destruct (existsb (hasId insertedId) st) eqn:Hid; simpl.
    + split; [ | split ].
      * split; [ discriminate | ].
        intros (d & Hd & Hds). destruct (Hfree d Hd Hds).
      * intros view Hv. discriminate Hv.
      * intros _ Hunused.
        apply existsb_hasId_false in Hunused. congruence.
    + split; [ | split ].
      * split; [ discriminate | ].
        intros (d & Hd & Hds). destruct (Hfree d Hd Hds).
      * intros view Hv. injection Hv as <-. simpl.
        repeat split; try reflexivity.
        eexists; repeat split; reflexivity.
      * intros _ _. eexists; reflexivity.
Qed.

(** What the schema lets through: the name and the code of the parsed
    object are the strings the body has under [name] and [code]. *)
Lemma createOrganisationSchema_some body parsed :
  createOrganisationSchema body = Some parsed ->
  body_name body = Some (JsonString (parsed_name parsed))
  /\ body_code body = Some (JsonString (parsed_code parsed))
  /\ nameOk (parsed_name parsed) = true
  /\ codeOk (parsed_code parsed) = true.
Proof.
  unfold createOrganisationSchema.
  destruct (body_name body) as [[n |] |]; try discriminate.
  destruct (body_code body) as [[c |] |]; try discriminate.
  destruct (nameOk n && codeOk c) eqn:Hok; [ | discriminate ].
  apply andb_true_iff in Hok as [Hn Hc].
  destruct (body_status body) as [v |].
  - destruct (organisationStatusSchema v); [ | discriminate ].
    simpl. intros E. injection E as <-. simpl. auto.
  - intros E. injection E as <-. simpl. auto.
Qed.

(** C1.  A [create] call on input that passed validation.  The object that
    [createOrganisationSchema] returns has the name and the code of the
    body and no slug, so [create], which reads the slug of its argument,
    throws a [TypeError] before its first storage call: it returns no view
    and stores nothing. *)
Theorem create_on_parsed_input insertedId now body parsed st :
  createOrganisationSchema body = Some parsed ->
  body_name body = Some (JsonString (parsed_name parsed))
  /\ body_code body = Some (JsonString (parsed_code parsed))
  /\ OrganisationMore.arg_slug (OrganisationMore.ofParsed parsed) = None
  /\ exec (perform insertedId) []
       (OrganisationMore.createOn now (OrganisationMore.ofParsed parsed)) st
     = (Raised OrganisationMore.TypeError, st, []).
Proof.
  intros Hparse.
  destruct (createOrganisationSchema_some _ _ Hparse) as (Hn & Hc & _).
  repeat split; assumption.
Qed.

(** C5.  Identifier errors of [getById], [update] and [delete]: a string
    that the identifier check refuses makes each call fail with the
    invalid-id error (and so not with not-found); a string that the check
    accepts and that names no stored organisation makes each call fail with
    not-found (and so not with invalid-id). *)
Theorem id_error_taxonomy insertedId now input st malformed unassigned :
  ObjectId_isValid malformed = false ->
  ObjectId_isValid unassigned = true ->
  findById (ObjectId_new unassigned) st = None ->
  (fst (run (perform insertedId) (getById malformed) st)
     = Raised InvalidOrganisationIdError
   /\ fst (run (perform insertedId) (update now malformed input) st)
     = Raised InvalidOrganisationIdError
   /\ fst (run (perform insertedId) (delete malformed) st)
     = Raised InvalidOrganisationIdError)
  /\ (fst (run (perform insertedId) (getById unassigned) st)
        = Raised OrganisationNotFoundError
      /\ fst (run (perform insertedId) (update now unassigned input) st)
        = Raised OrganisationNotFoundError
      /\ fst (run (perform insertedId) (delete unassigned) st)
        = Raised OrganisationNotFoundError).
Proof.
  intros Hbad Hgood Habsent. split; repeat split.
  - rewrite getById_run, Hbad. reflexivity.
  - rewrite (update_invalid_id _ _ _ _ _ Hbad). reflexivity.
  - rewrite delete_run, Hbad. reflexivity.
  - rewrite getById_run, Hgood, Habsent. reflexivity.
  - rewrite (update_run _ _ _ _ _ Hgood), Habsent. reflexivity.
  - rewrite delete_run, Hgood, (deleteById_absent _ _ Habsent). reflexivity.
Qed.

(** C6.  [update] with a slug supplied, on a stored organisation [org]:
    the call fails with the slug-taken error exactly when the normalised
    slug differs from [org]'s and the record found under that slug has
    another identifier.  Hence a slug that normalises to the current one
    never gives slug-taken (the call returns), and slug-taken is only ever
    caused by a different organisation holding the normalised slug. *)
Theorem update_slug_recheck insertedId now id input st org s :
  ObjectId_isValid id = true ->
  findById (ObjectId_new id) st = Some org ->
  upd_slug input = Some s ->
  let out := run (perform insertedId) (update now id input) st in
  (fst out = Raised OrganisationSlugTakenError <->
     normaliseSlug s <> slug org
     /\ exists e, findBySlug (normaliseSlug s) st = Some e /\ _id e <> _id org)
  /\ (normaliseSlug s = slug org ->
        fst out <> Raised OrganisationSlugTakenError
        /\ exists view, fst out = Returned view /\ res_slug view = slug org)
  /\ (fst out = Raised OrganisationSlugTakenError ->
        exists d, In d st /\ slug d = normaliseSlug s /\ _id d <> _id org).
Proof.
  intros Hvalid Hload Hslug out.
  destruct (findById_some _ _ _ Hload) as [_ Hid].
  assert (Hself : findById (_id org) st = Some org) by (rewrite Hid; exact Hload).
  destruct (updateById_found _ (updatePayload now input) _ _ Hself)
    as (l1 & l2 & _ & _ & Hupd).
  set (org' := Repository.applySet (updatePayload now input) org) in *.
  set (ok := (@Returned OrganisationError _ (toOrganisationResponse org'),
              l1 ++ org' :: l2)).
  assert (Hout : out =
    if String.eqb (normaliseSlug s) (slug org) then ok
    else match findBySlug (normaliseSlug s) st with
         | Some e =>
             if equals (_id e) (_id org) then ok
             else (Raised OrganisationSlugTakenError, st)
         | None => ok
         end).
  { subst out ok. rewrite (update_run _ _ _ _ _ Hvalid), Hload, Hslug.
    cbv zeta. rewrite Hupd. reflexivity. }
  clearbody out. subst out.
  assert (Hiff :
    fst (if String.eqb (normaliseSlug s) (slug org) then ok
         else match findBySlug (normaliseSlug s) st with
              | Some e =>
                  if equals (_id e) (_id org) then ok
                  else (Raised OrganisationSlugTakenError, st)
              | None => ok
              end) = Raised OrganisationSlugTakenError <->
    normaliseSlug s <> slug org
    /\ exists e, findBySlug (normaliseSlug s) st = Some e /\ _id e <> _id org).
  { destruct (String.eqb (normaliseSlug s) (slug org)) eqn:Hsame.
    - apply String.eqb_eq in Hsame. split; [ discriminate | ].
      intros [Hne _]. destruct (Hne Hsame).
    - apply String.eqb_neq in Hsame.
      destruct (findBySlug (normaliseSlug s) st) as [e |] eqn:Hfind.
      + destruct (equals (_id e) (_id org)) eqn:Heq.
        * apply equals_eq in Heq. split; [ discriminate | ].
          intros (_ & e' & He' & Hne). injection He' as <-. destruct (Hne Heq).
        * split; [ | reflexivity ]. intros _. split; [ assumption | ].
          exists e. split; [ reflexivity | ].
          intros E. apply equals_eq in E. congruence.
      + split; [ discriminate | ].
        intros (_ & e' & He' & _). discriminate He'. }
  split; [ exact Hiff | split ].
  - intros Hsame. split.
    + intros Htaken. apply Hiff in Htaken as [Hne _]. destruct (Hne Hsame).
    + apply String.eqb_eq in Hsame. rewrite Hsame.
      exists (toOrganisationResponse org'). split; [ reflexivity | ].
      subst org'. simpl. rewrite Hslug. simpl.
      apply String.eqb_eq. assumption.
  - intros Htaken. apply Hiff in Htaken as (_ & e & Hfind & Hne).
    apply findBySlug_some in Hfind as [He Hes].
    exists e. auto.
Qed.

Lemma writeStep_exec rest insertedId oid payload s r st' tr :
  exec (perform insertedId) rest (writeStep oid payload) s = (r, st', tr) ->
  tr = [(Repository.UpdateById oid payload, interfere rest s)]
  /\ match findById oid (interfere rest s) with
     | None => r = Raised OrganisationNotFoundError /\ st' = interfere rest s
     | Some d =>
         r = Returned (toOrganisationResponse (Repository.applySet payload d))
         /\ _id d = oid
         /\ findById oid st' = Some (Repository.applySet payload d)
     end.
Proof.
  unfold writeStep. cbn. set (s3 := interfere rest s). intros Hexec.
  destruct (findById oid s3) as [d |] eqn:Hfind.
  - destruct (updateById_found _ payload _ _ Hfind) as (l1 & l2 & Hs3 & Hl1 & Hupd).
    rewrite Hupd in Hexec. cbn in Hexec. injection Hexec as <- <- <-.
    destruct (findById_some _ _ _ Hfind) as [_ Hid].
    repeat split; try assumption.
    apply find_after_update.
    + unfold hasId. simpl. rewrite Hid. apply equals_refl.
    + intros x Hx. specialize (Hl1 x Hx). unfold hasId.
      destruct (equals (_id x) oid) eqn:E; [ | reflexivity ].
      apply equals_eq in E. contradiction.
  - rewrite (updateById_absent _ payload _ Hfind) in Hexec. cbn in Hexec.
    injection Hexec as <- <- <-. repeat split; reflexivity.
Qed.

(** C8.  [update] on an identifier that the check accepts, with other
    requests free to act at every [await].  If the load finds no record the
    call fails with not-found and performs no other call.  If the load
    finds a record, the call ends in one of two ways.  Either the slug
    re-check finds the slug on a record with another identifier: the call
    fails with slug-taken and writes nothing (whether or not the loaded
    record is still stored).  Or the call performs the write, once, as its
    last call, with a payload that sets the update time to [now]: if the
    write finds no record the call fails with not-found and leaves the
    collection as it was, otherwise the call returns the record [d] the
    write found with its update time set to [now], its name, slug and
    status kept wherever the input left them out, and its identifier and
    creation time kept.  A call that runs alone on a stored record, with no
    other record holding the slug it looks up, returns. *)
Theorem update_effects others insertedId now id input st r st' tr :
  ObjectId_isValid id = true ->
  exec (perform insertedId) others (update now id input) st = (r, st', tr) ->
  let oid := ObjectId_new id in
  let payload := updatePayload now input in
  let load := (Repository.FindById oid, seenFirst others st) in
  (findById oid (seenFirst others st) = None ->
     r = Raised OrganisationNotFoundError
     /\ st' = seenFirst others st
     /\ tr = [load])
  /\ (forall org, findById oid (seenFirst others st) = Some org ->
        (exists slug' e,
            rechecks input org = Some slug'
            /\ findBySlug slug' (seenSecond others st) = Some e
            /\ _id e <> _id org
            /\ r = Raised OrganisationSlugTakenError
            /\ st' = seenSecond others st
            /\ tr = [load; (Repository.FindBySlug slug', seenSecond others st)])
        \/ (exists pre s3,
              tr = load :: pre ++ [(Repository.UpdateById oid payload, s3)]
              /\ ((pre = [] /\ rechecks input org = None
                   /\ s3 = seenSecond others st)
                  \/ (exists slug',
                        pre = [(Repository.FindBySlug slug', seenSecond others st)]
                        /\ rechecks input org = Some slug'
                        /\ s3 = seenThird others st
                        /\ forall e,
                             findBySlug slug' (seenSecond others st) = Some e ->
                             _id e = _id org))
              /\ set_updatedAt payload = Some now
              /\ match findById oid s3 with
                 | None => r = Raised OrganisationNotFoundError /\ st' = s3
                 | Some d =>
                     let d' := Repository.applySet payload d in
                     r = Returned (toOrganisationResponse d')
                     /\ findById oid st' = Some d'
                     /\ updatedAt d' = now
                     /\ res_updatedAt (toOrganisationResponse d') = toISOString now
                     /\ (upd_name input = None -> name d' = name d)
                     /\ (upd_slug input = None -> slug d' = slug d)
                     /\ (upd_status input = None -> status d' = status d)
                     /\ createdAt d' = createdAt d
                     /\ _id d' = _id d
                 end))
  /\ (others = [] ->
      forall org, findById oid st = Some org ->
      (forall slug' e, rechecks input org = Some slug' ->
         findBySlug slug' st = Some e -> _id e = _id org) ->
      r = Returned (toOrganisationResponse (Repository.applySet payload org))
      /\ findById oid st' = Some (Repository.applySet payload org)).
Proof.
  intros Hvalid Hexec oid payload load.
  assert (Hmain :
    (findById oid (seenFirst others st) = None ->
       r = Raised OrganisationNotFoundError
       /\ st' = seenFirst others st
       /\ tr = [load])
    /\ (forall org, findById oid (seenFirst others st) = Some org ->
          (exists slug' e,
              rechecks input org = Some slug'
              /\ findBySlug slug' (seenSecond others st) = Some e
              /\ _id e <> _id org
              /\ r = Raised OrganisationSlugTakenError
              /\ st' = seenSecond others st
              /\ tr = [load; (Repository.FindBySlug slug', seenSecond others st)])
          \/ (exists pre s3,
                tr = load :: pre ++ [(Repository.UpdateById oid payload, s3)]
                /\ ((pre = [] /\ rechecks input org = None
                     /\ s3 = seenSecond others st)
                    \/ (exists slug',
                          pre = [(Repository.FindBySlug slug', seenSecond others st)]
                          /\ rechecks input org = Some slug'
                          /\ s3 = seenThird others st
                          /\ forall e,
                               findBySlug slug' (seenSecond others st) = Some e ->
                               _id e = _id org))
                /\ set_updatedAt payload = Some now
                /\ match findById oid s3 with
                   | None => r = Raised OrganisationNotFoundError /\ st' = s3
                   | Some d =>
                       let d' := Repository.applySet payload d in
                       r = Returned (toOrganisationResponse d')
                       /\ findById oid st' = Some d'
                       /\ updatedAt d' = now
                       /\ res_updatedAt (toOrganisationResponse d') = toISOString now
                       /\ (upd_name input = None -> name d' = name d)
                       /\ (upd_slug input = None -> slug d' = slug d)
                       /\ (upd_status input = None -> status d' = status d)
                       /\ createdAt d' = createdAt d
                       /\ _id d' = _id d
                   end))).
  { unfold update, parseObjectId, checkSlugFree in Hexec.
    rewrite Hvalid in Hexec. cbn in Hexec.
    unfold seenThird, seenSecond, seenFirst. subst load. unfold seenFirst.
    fold oid in Hexec.
    set (s1 := interfere others st) in *.
    destruct (findById oid s1) as [org |] eqn:Hload; cbn in Hexec.
    2: { injection Hexec as <- <- <-.
         split; [ intros _; repeat split; reflexivity | ].
         intros org E. discriminate E. }
    split; [ intros E; discriminate E | ].
    intros org' E. injection E as <-.
    destruct (findById_some _ _ _ Hload) as [_ Hid]. rewrite Hid in Hexec.
    (* how the call ends once it has reached the write *)
    assert (Hfinish : forall rest s r0 s0 tr0,
      exec (perform insertedId) rest (writeStep oid payload) s = (r0, s0, tr0) ->
      tr0 = [(Repository.UpdateById oid payload, interfere rest s)]
      /\ set_updatedAt payload = Some now
      /\ match findById oid (interfere rest s) with
         | None => r0 = Raised OrganisationNotFoundError /\ s0 = interfere rest s
         | Some d =>
             let d' := Repository.applySet payload d in
             r0 = Returned (toOrganisationResponse d')
             /\ findById oid s0 = Some d'
             /\ updatedAt d' = now
             /\ res_updatedAt (toOrganisationResponse d') = toISOString now
             /\ (upd_name input = None -> name d' = name d)
             /\ (upd_slug input = None -> slug d' = slug d)
             /\ (upd_status input = None -> status d' = status d)
             /\ createdAt d' = createdAt d
             /\ _id d' = _id d
         end).
    { intros rest s r0 s0 tr0 Hw.
      destruct (writeStep_exec _ _ _ _ _ _ _ _ Hw) as (Htr & Hcase).
      split; [ exact Htr | ]. split; [ reflexivity | ].
      destruct (findById oid (interfere rest s)) as [d |]; [ | exact Hcase ].
      destruct Hcase as (Hr & _ & Hstored).
      cbv zeta. repeat split; try assumption; try reflexivity.
      - intros E. subst payload. simpl. rewrite E. reflexivity.
      - intros E. subst payload. simpl. rewrite E. reflexivity.
      - intros E. subst payload. simpl. rewrite E. reflexivity. }
    unfold rechecks.
    destruct (upd_slug input) as [s |] eqn:Hslug; cbn in Hexec.
    - assert (Hp : {| set_name := option_map normaliseName (upd_name input);
                      set_slug := Some (normaliseSlug s);
                      set_status := upd_status input;
                      set_updatedAt := Some now |} = payload).
      { subst payload. unfold updatePayload. rewrite Hslug. reflexivity. }
      destruct (String.eqb (normaliseSlug s) (slug org)) eqn:Hsame; cbn in Hexec.
      + rewrite Hp in Hexec.
        change ((let '(r0, s0, tr0) :=
                   exec (perform insertedId) (tl others) (writeStep oid payload) s1 in
                 (r0, s0, (Repository.FindById oid, s1) :: tr0))
                = (r, st', tr)) in Hexec.
        destruct (exec _ (tl others) (writeStep _ _) s1) as [[r0 s0] tr0] eqn:Hw.
        injection Hexec as <- <- <-.
        destruct (Hfinish _ _ _ _ _ Hw) as (-> & Hset & Hcase).
        right. exists [], (interfere (tl others) s1).
        split; [ reflexivity | ].
        split; [ left; repeat split; reflexivity | ].
        split; [ exact Hset | exact Hcase ].
      + set (s2 := interfere (tl others) s1) in *.
        destruct (findBySlug (normaliseSlug s) s2) as [e |] eqn:Hfound;
          cbn in Hexec.
        * destruct (equals (_id e) oid) eqn:Heq; cbn in Hexec.
          -- rewrite Hp in Hexec.
             change ((let '(r0, s0, tr0) :=
                        let '(r0, s0, tr0) :=
                          exec (perform insertedId) (tl (tl others))
                            (writeStep oid payload) s2 in
                        (r0, s0, (Repository.FindBySlug (normaliseSlug s), s2) :: tr0) in
                      (r0, s0, (Repository.FindById oid, s1) :: tr0))
                     = (r, st', tr)) in Hexec.
             destruct (exec _ (tl (tl others)) (writeStep _ _) s2)
               as [[r0 s0] tr0] eqn:Hw.
             injection Hexec as <- <- <-.
             destruct (Hfinish _ _ _ _ _ Hw) as (-> & Hset & Hcase).
             right. exists [(Repository.FindBySlug (normaliseSlug s), s2)],
                      (interfere (tl (tl others)) s2).
             split; [ reflexivity | ].
             split; [ | split; [ exact Hset | exact Hcase ] ].
             right. exists (normaliseSlug s). repeat split.
             intros e' E. rewrite Hfound in E. injection E as <-.
             apply equals_eq in Heq. congruence.
          -- injection Hexec as <- <- <-.
             left. exists (normaliseSlug s), e.
             split; [ reflexivity | ]. split; [ exact Hfound | ].
             split; [ | repeat split ].
             intros E. rewrite E, Hid, equals_refl in Heq. discriminate Heq.
        * rewrite Hp in Hexec.
          change ((let '(r0, s0, tr0) :=
                     let '(r0, s0, tr0) :=
                       exec (perform insertedId) (tl (tl others))
                         (writeStep oid payload) s2 in
                     (r0, s0, (Repository.FindBySlug (normaliseSlug s), s2) :: tr0) in
                   (r0, s0, (Repository.FindById oid, s1) :: tr0))
                  = (r, st', tr)) in Hexec.
          destruct (exec _ (tl (tl others)) (writeStep _ _) s2)
            as [[r0 s0] tr0] eqn:Hw.
          injection Hexec as <- <- <-.
          destruct (Hfinish _ _ _ _ _ Hw) as (-> & Hset & Hcase).
          right. exists [(Repository.FindBySlug (normaliseSlug s), s2)],
                   (interfere (tl (tl others)) s2).
          split; [ reflexivity | ].
          split; [ | split; [ exact Hset | exact Hcase ] ].
          right. exists (normaliseSlug s). repeat split.
          intros e' E. rewrite Hfound in E. discriminate E.
    - assert (Hp : {| set_name := option_map normaliseName (upd_name input);
                      set_slug := None;
                      set_status := upd_status input;
                      set_updatedAt := Some now |} = payload).
      { subst payload. unfold updatePayload. rewrite Hslug. reflexivity. }
      rewrite Hp in Hexec.
      change ((let '(r0, s0, tr0) :=
                 exec (perform insertedId) (tl others) (writeStep oid payload) s1 in
               (r0, s0, (Repository.FindById oid, s1) :: tr0))
              = (r, st', tr)) in Hexec.
      destruct (exec _ (tl others) (writeStep _ _) s1) as [[r0 s0] tr0] eqn:Hw.
      injection Hexec as <- <- <-.
      destruct (Hfinish _ _ _ _ _ Hw) as (-> & Hset & Hcase).
      right. exists [], (interfere (tl others) s1).
      split; [ reflexivity | ].
      split; [ left; repeat split; reflexivity | ].
      split; [ exact Hset | exact Hcase ]. }
  destruct Hmain as [Habsent Hpresent].
  split; [ exact Habsent | ]. split; [ exact Hpresent | ].
  intros -> org Hload Hfree.
  unfold seenThird, seenSecond, seenFirst in Hpresent. simpl in Hpresent.
  destruct (Hpresent org Hload)
    as [(slug' & e & Hre & Hfound & Hne & _) | (pre & s3 & _ & Hs3 & _ & Hcase)].
  - destruct (Hne (Hfree _ _ Hre Hfound)).
  - assert (E : s3 = st).
    { destruct Hs3 as [(_ & _ & E) | (slug' & _ & _ & E & _)]; exact E. }
    rewrite E, Hload in Hcase.
    destruct Hcase as (Hr & Hstored & _). split; assumption.
Qed.


(** [create], [update] and [delete], each running alone on slugs that the
    kebab-case pattern accepts, keep the collection [wellFormed]. *)
Lemma wellFormed_create insertedId now input st :
  test kebabPattern (in_slug input) = true ->
  wellFormed st ->
  wellFormed (snd (run (perform insertedId) (create now input) st)).
Proof.
  intros Hok (Hids & Hslugs & Hfmt).
  rewrite create_run. unfold normaliseSlug.
  rewrite (JsTextFacts.kebab_fixed _ Hok).
  destruct (findBySlug (in_slug input) st) as [e |] eqn:Hfind; simpl.
  { repeat split; assumption. }
  unfold Repository.create.
  destruct (existsb (hasId insertedId) st) eqn:Hused; simpl.
  { repeat split; assumption. }
  pose proof (proj1 (findBySlug_none _ _) Hfind) as Hfree.
  pose proof (proj1 (existsb_hasId_false _ _) Hused) as Hunused.
  unfold wellFormed. rewrite !map_app. simpl. repeat split.
  - apply NoDup_snoc; [ assumption | ].
    intros Hin. apply in_map_iff in Hin as (d & Hd & Hin).
    exact (Hunused d Hin Hd).
  - apply NoDup_snoc; [ assumption | ].
    intros Hin. apply in_map_iff in Hin as (d & Hd & Hin).
    exact (Hfree d Hin Hd).
  - apply Forall_app. split; [ assumption | ].
    constructor; [ assumption | constructor ].
Qed.

Lemma wellFormed_update insertedId now id input st :
  optionOk (test kebabPattern) (upd_slug input) = true ->
  wellFormed st ->
  wellFormed (snd (run (perform insertedId) (update now id input) st)).
Proof.
  intros Hmatch Hwf.
  assert (Hok : forall s, upd_slug input = Some s ->
                          test kebabPattern s = true).
  { intros s Hs. rewrite Hs in Hmatch. exact Hmatch. }
  destruct (ObjectId_isValid id) eqn:Hvalid.
  2: { rewrite (update_invalid_id _ _ _ _ _ Hvalid). assumption. }
  rewrite (update_run _ _ _ _ _ Hvalid).
  destruct (findById (ObjectId_new id) st) as [org |] eqn:Hload;
    [ | assumption ].
  destruct (findById_some _ _ _ Hload) as [Horg Hid].
  rewrite <- Hid in Hload.
  destruct (updateById_found _ (updatePayload now input) _ _ Hload)
    as (l1 & l2 & Hst & Hl1 & Hupd).
  cbv zeta. rewrite Hupd. unfold written.
  (* the write keeps the invariant as soon as the new slug is the old one
     or is held by no stored record *)
  assert (Hwrite :
    (forall s, upd_slug input = Some s ->
       normaliseSlug s = slug org \/ findBySlug (normaliseSlug s) st = None) ->
    wellFormed (l1 ++ Repository.applySet (updatePayload now input) org :: l2)).
  { intros Hnew. destruct Hwf as (Hids & Hslugs & Hfmt).
    rewrite Hst in Hids, Hslugs, Hfmt.
    unfold wellFormed. rewrite !map_app in *. simpl in *. repeat split.
    - assumption.
    - apply (NoDup_replace _ _ (slug org)); [ assumption | ].
      destruct (upd_slug input) as [s |] eqn:Hs; simpl; [ | left; reflexivity ].
      destruct (Hnew s eq_refl) as [E | Hnone]; [ left; assumption | right ].
      intros Hin. change (In (normaliseSlug s) (map slug l1 ++ map slug (org :: l2))) in Hin.
      rewrite <- map_app, <- Hst in Hin.
      apply in_map_iff in Hin as (d & Hd & Hin).
      exact (proj1 (findBySlug_none _ _) Hnone d Hin Hd).
    - apply Forall_app in Hfmt as [Hf1 Hf2].
      apply Forall_app. split; [ assumption | ].
      apply Forall_cons_iff in Hf2 as [Hforg Hf2].
      constructor; [ | assumption ]. simpl.
      destruct (upd_slug input) as [s |] eqn:Hs; simpl; [ | assumption ].
      unfold normaliseSlug. rewrite (JsTextFacts.kebab_fixed _ (Hok s eq_refl)).
      apply Hok. reflexivity. }
  destruct (upd_slug input) as [s |] eqn:Hs.
  - destruct (String.eqb (normaliseSlug s) (slug org)) eqn:Hsame.
    + apply Hwrite. intros s' E. injection E as <-.
      left. apply String.eqb_eq. assumption.
    + destruct (findBySlug (normaliseSlug s) st) as [e |] eqn:Hfind.
      * destruct (equals (_id e) (_id org)) eqn:Heq; [ | assumption ].
        (* the record found under the new slug would be [org] itself *)
        apply equals_eq in Heq.
        apply findBySlug_some in Hfind as [He Hes].
        destruct Hwf as (Hids & _ & _).
        pose proof (NoDup_map_eq _id st e org Hids He Horg Heq) as ->.
        apply String.eqb_neq in Hsame. congruence.
      * apply Hwrite. intros s' E. injection E as <-. right. assumption.
  - apply Hwrite. intros s' E. discriminate E.
Qed.

Lemma wellFormed_delete insertedId id st :
  wellFormed st ->
  wellFormed (snd (run (perform insertedId) (delete id) st)).
Proof.
  intros Hwf. rewrite delete_run.
  destruct (ObjectId_isValid id); [ | assumption ].
  destruct (findById (ObjectId_new id) st) as [d |] eqn:Hfind.
  - destruct (deleteById_found _ _ _ Hfind) as (l1 & l2 & Hst & ->). simpl.
    destruct Hwf as (Hids & Hslugs & Hfmt).
    rewrite Hst in Hids, Hslugs, Hfmt.
    unfold wellFormed. rewrite !map_app in *. simpl in *. repeat split.
    + eapply NoDup_remove_1; eassumption.
    + eapply NoDup_remove_1; eassumption.
    + apply Forall_app in Hfmt as [Hf1 Hf2].
      apply Forall_cons_iff in Hf2 as [_ Hf2].
      apply Forall_app. split; assumption.
  - rewrite (deleteById_absent _ _ Hfind). assumption.
Qed.

Lemma wellFormed_getById insertedId id st :
  wellFormed st ->
  wellFormed (snd (run (perform insertedId) (getById id) st)).
Proof.
  intros Hwf. rewrite getById_run.
  destruct (ObjectId_isValid id); [ | assumption ].
  destruct (findById (ObjectId_new id) st); assumption.
Qed.

End WithLibraries.

(** Worked examples on the sample data. *)
#[local] Existing Instance Sample.sampleLibraries.

(** A body with a name and a slug, as the body schema of the POST route
    asks for: the schema refuses it, for it has no code. *)
Example body_with_slug_refused :
  createOrganisationSchema
    (mkBody (Some (JsonString "Acme")) (Some (JsonString "acme")) None None)
  = None.
Proof. reflexivity. Qed.

Lemma create_on_parsed_input_witness :
  createOrganisationSchema
    (mkBody (Some (JsonString "Acme")) None (Some (JsonString "acme")) None)
    = Some (mkParsedOrganisation "Acme" "acme" active)
  /\ exec (perform Sample.oidA) []
       (OrganisationMore.createOn 0%Z
          (OrganisationMore.ofParsed (mkParsedOrganisation "Acme" "acme" active)))
       []
     = (Raised OrganisationMore.TypeError, [], []).
Proof.
  split; [ reflexivity | ].
  exact (proj2 (proj2 (proj2
    (create_on_parsed_input (L := Sample.sampleLibraries) Sample.oidA 0%Z
       (mkBody (Some (JsonString "Acme")) None (Some (JsonString "acme")) None)
       (mkParsedOrganisation "Acme" "acme" active) [] eq_refl)))).
Defined.

Lemma id_error_taxonomy_witness :
  ObjectId_isValid "not-a-valid-id-format" = false
  /\ ObjectId_isValid "65f000000000000000000009" = true
  /\ findById (ObjectId_new "65f000000000000000000009") [Sample.orgA] = None
  /\ fst (run (perform Sample.oidB) (getById "not-a-valid-id-format") [Sample.orgA])
     = Raised InvalidOrganisationIdError
  /\ fst (run (perform Sample.oidB) (getById "65f000000000000000000009") [Sample.orgA])
     = Raised OrganisationNotFoundError.
Proof.
  split; [ reflexivity | ]. split; [ reflexivity | ]. split; [ reflexivity | ].
  destruct (id_error_taxonomy (L := Sample.sampleLibraries) Sample.oidB 0%Z
              (mkUpdateOrganisationInput None None None) [Sample.orgA]
              "not-a-valid-id-format" "65f000000000000000000009"
              eq_refl eq_refl eq_refl) as ((Hbad & _) & (Hgood & _)).
  split; assumption.
Defined.

Lemma update_slug_recheck_witness :
  ObjectId_isValid "65f000000000000000000001" = true
  /\ findById (ObjectId_new "65f000000000000000000001") [Sample.orgA; Sample.orgB]
     = Some Sample.orgA
  /\ normaliseSlug " ACME " = slug Sample.orgA
  /\ fst (run (perform Sample.oidB)
            (update 7%Z "65f000000000000000000001"
               (mkUpdateOrganisationInput None (Some " ACME ") None))
            [Sample.orgA; Sample.orgB])
     <> Raised OrganisationSlugTakenError.
Proof.
  split; [ reflexivity | ]. split; [ reflexivity | ]. split; [ reflexivity | ].
  destruct (update_slug_recheck (L := Sample.sampleLibraries) Sample.oidB 7%Z "65f000000000000000000001"
              (mkUpdateOrganisationInput None (Some " ACME ") None)
              [Sample.orgA; Sample.orgB] Sample.orgA " ACME "
              eq_refl eq_refl eq_refl) as (_ & Hsame & _).
  exact (proj1 (Hsame eq_refl)).
Defined.

(** Two creates whose slugs agree after normalisation: the second is
    refused. *)
Example create_same_slug_twice :
  let st1 := snd (run (perform Sample.oidA)
                    (create 0%Z (mkCreateOrganisationInput "Acme" "Acme" None)) []) in
  fst (run (perform Sample.oidB)
         (create 1%Z (mkCreateOrganisationInput "Acme again" "acme" None)) st1)
  = Raised OrganisationSlugTakenError.
Proof. reflexivity. Qed.

(** Deleting one identifier twice: the second call finds nothing. *)
Example delete_twice :
  let st1 := snd (run (perform Sample.oidB)
                    (delete "65f000000000000000000001") [Sample.orgA]) in
  fst (run (perform Sample.oidB) (delete "65f000000000000000000001") [Sample.orgA])
    = Returned tt
  /\ fst (run (perform Sample.oidB) (delete "65f000000000000000000001") st1)
    = Raised OrganisationNotFoundError.
Proof. split; reflexivity. Qed.

(** The record is deleted by another request between the load and the
    write: the call ends with not-found. *)
Example update_lost_record :
  fst (fst (exec (perform Sample.oidB)
              [ (fun st => st); (fun _ => [Sample.orgB]) ]
              (update 7%Z "65f000000000000000000001"
                 (mkUpdateOrganisationInput (Some "Acme Ltd") None None))
              [Sample.orgA; Sample.orgB]))
  = Raised OrganisationNotFoundError.
Proof. reflexivity. Qed.

(** The record is deleted by another request between the load and the
    slug re-check, and another record holds the slug asked for: the call
    ends with slug-taken, not with not-found. *)
Lemma update_slug_taken_after_removal :
  let others := [ (fun st : Store => st); (fun _ : Store => [Sample.orgB]) ] in
  let out :=
    exec (perform Sample.oidB) others
      (update 7%Z "65f000000000000000000001"
         (mkUpdateOrganisationInput None (Some "beta") None))
      [Sample.orgA; Sample.orgB] in
  findById Sample.oidA (seenFirst others [Sample.orgA; Sample.orgB])
    = Some Sample.orgA
  /\ findById Sample.oidA (seenSecond others [Sample.orgA; Sample.orgB]) = None
  /\ findById Sample.oidA (seenThird others [Sample.orgA; Sample.orgB]) = None
  /\ fst (fst out) = Raised OrganisationSlugTakenError
  /\ fst (fst out) <> Raised OrganisationNotFoundError.
Proof.
  cbv zeta. split; [ reflexivity | ]. split; [ reflexivity | ].
  split; [ reflexivity | ]. split; [ reflexivity | ].
  intros E. vm_compute in E. discriminate E.
Qed.

Lemma update_effects_witness :
  ObjectId_isValid "65f000000000000000000001" = true
  /\ findById (ObjectId_new "65f000000000000000000001") [Sample.orgA; Sample.orgB]
     = Some Sample.orgA
  /\ fst (fst (exec (perform Sample.oidB) []
                 (update 7%Z "65f000000000000000000001"
                    (mkUpdateOrganisationInput (Some "Acme Ltd") None None))
                 [Sample.orgA; Sample.orgB]))
     = Returned (toOrganisationResponse
                   (mkOrganisationDocument Sample.oidA "Acme Ltd" "acme" active 0%Z 7%Z)).
Proof.
  split; [ reflexivity | ]. split; [ reflexivity | ].
  destruct (update_effects (L := Sample.sampleLibraries) [] Sample.oidB 7%Z "65f000000000000000000001"
              (mkUpdateOrganisationInput (Some "Acme Ltd") None None)
              [Sample.orgA; Sample.orgB]
              (Returned (mkOrganisationResponse "65f000000000000000000001"
                           "Acme Ltd" "acme" active
                           "1970-01-01T00:00:00.000Z" "later"))
              [ mkOrganisationDocument Sample.oidA "Acme Ltd" "acme" active 0%Z 7%Z;
                Sample.orgB ]
              [ (Repository.FindById Sample.oidA, [Sample.orgA; Sample.orgB]);
                (Repository.UpdateById Sample.oidA
                   (updatePayload 7%Z (mkUpdateOrganisationInput (Some "Acme Ltd") None None)),
                 [Sample.orgA; Sample.orgB]) ]
              eq_refl eq_refl) as (_ & _ & Halone).
  destruct (Halone eq_refl Sample.orgA eq_refl) as [Hr _].
  - intros slug' e E. discriminate E.
  - exact Hr.
Defined.

End OrganisationFacts.

Module AuthFacts.
Import JsText Effects Effects.Notations Lib Auth.
Import LibFacts.

Local Arguments findOne : simpl never.
Local Arguments updateOne : simpl never.

Section WithLibraries.
Context {L : Libraries}.

(** What a login that runs alone does: its answer, the collection it
    leaves, and the calls it performed. *)
Lemma login_exec app loginTime uuid body users :
  mongo_db app = true ->
  exec perform [] (login app loginTime uuid body) users =
  let e := trim (body_email body) in
  match lookupResult users e with
  | None => (Returned (Unauthorized invalidCredentials), users, lookupCalls users e)
  | Some u =>
      let compare := (BcryptCompare (body_password body) (passwordHash u), users) in
      if negb (bcrypt_compare (body_password body) (passwordHash u))
      then (Returned (Unauthorized invalidCredentials), users,
            lookupCalls users e ++ [compare])
      else if negb (isActive (status u))
      then (Returned (Forbidden ("User is " ++ statusText (status u))), users,
            lookupCalls users e ++ [compare])
      else (Returned (LoggedIn (replyFor app loginTime uuid u)),
            updateOne (IdIs (_id u)) (mkLoginStamp loginTime loginTime) users,
            lookupCalls users e
              ++ [compare;
                  (UpdateOne (IdIs (_id u)) (mkLoginStamp loginTime loginTime), users)])
  end.
Proof.
  intros Hdb. unfold login, lookup, lookupResult, lookupCalls, call.
  rewrite Hdb. cbn.
  set (e := trim (body_email body)).
  destruct (findOne (EmailIs e) users) as [u |] eqn:Hexact; cbn.
  - destruct (bcrypt_compare (body_password body) (passwordHash u)); cbn;
      [ | reflexivity ].
    destruct (isActive (status u)); reflexivity.
  - destruct (negb (String.eqb e "")); cbn; [ | reflexivity ].
    destruct (findOne (EmailRegExp _ _) users) as [u |]; cbn; [ | reflexivity ].
    destruct (bcrypt_compare (body_password body) (passwordHash u)); cbn;
      [ | reflexivity ].
    destruct (isActive (status u)); reflexivity.
Qed.

Lemma lookupResult_stored users e u :
  lookupResult users e = Some u -> In u users.
Proof.
  unfold lookupResult, findOne.
  destruct (find (matches (EmailIs e)) users) as [u0 |] eqn:Hexact.
  - intros E. injection E as <-. apply find_some in Hexact. tauto.
  - destruct (negb (String.eqb e "")); [ | discriminate ].
    intros Hci. apply find_some in Hci. tauto.
Qed.

(** The lookup ends without a user exactly when no stored address equals
    the trimmed one and, for a non-empty trimmed address, none matches its
    anchored case-insensitive pattern. *)
Lemma lookupResult_none users e :
  lookupResult users e = None <->
  (forall d, In d users -> email d <> e)
  /\ (e <> ""%string ->
      forall d, In d users ->
        regexMatches ("^" ++ escapeForRegex e ++ "$") "i" (email d) = false).
Proof.
  unfold lookupResult, findOne. split.
  - destruct (find (matches (EmailIs e)) users) as [u |] eqn:Hexact;
      [ discriminate | ].
    intros Hci. split.
    + intros d Hd E. pose proof (find_none _ _ Hexact d Hd) as Hm.
      simpl in Hm. rewrite E, String.eqb_refl in Hm. discriminate.
    + intros Hne d Hd. apply String.eqb_neq in Hne. rewrite Hne in Hci.
      exact (find_none _ _ Hci d Hd).
  - intros [Hexact Hci].
    destruct (find (matches (EmailIs e)) users) as [u |] eqn:Hfind.
    + apply find_some in Hfind as [Hu Hm]. simpl in Hm.
      apply String.eqb_eq in Hm. destruct (Hexact u Hu Hm).
    + destruct (String.eqb e "") eqn:Hempty; [ reflexivity | ].
      apply String.eqb_neq in Hempty. cbn [negb].
      destruct (find (matches (EmailRegExp _ _)) users) as [u |] eqn:Hfind2;
        [ | reflexivity ].
      apply find_some in Hfind2 as [Hu Hm]. unfold matches in Hm.
      rewrite (Hci Hempty u Hu) in Hm. discriminate.
Qed.

Lemma lookupCalls_read_only users e : writes (lookupCalls users e) = [].
Proof.
  unfold lookupCalls, writes. simpl.
  destruct (findOne (EmailIs e) users); [ reflexivity | ].
  destruct (negb (String.eqb e "")); reflexivity.
Qed.

Lemma writes_app tr1 tr2 : writes (tr1 ++ tr2) = writes tr1 ++ writes tr2.
Proof. apply filter_app. Qed.

(** [updateOne] by identifier rewrites the first record with that
    identifier and nothing else. *)
Lemma updateOne_by_id users u set :
  In u users ->
  exists l1 d l2,
    users = l1 ++ d :: l2
    /\ _id d = _id u
    /\ (forall x, In x l1 -> _id x <> _id u)
    /\ updateOne (IdIs (_id u)) set users = l1 ++ applyStamp set d :: l2.
Proof.
  induction users as [| a users IH]; simpl; [ intros [] | ].
  intros Hin. unfold updateOne. fold (updateOne (IdIs (_id u)) set users).
  simpl. destruct (equals (_id a) (_id u)) eqn:Ha.
  - apply equals_eq in Ha. exists [], a, users. simpl. repeat split; tauto.
  - assert (Hne : _id a <> _id u).
    { intros E. apply equals_eq in E. congruence. }
    destruct Hin as [-> | Hin]; [ congruence | ].
    destruct (IH Hin) as (l1 & d & l2 & -> & Hd & Hl1 & ->).
    exists (a :: l1), d, l2. simpl. repeat split; auto.
    intros x [<- | Hx]; auto.
Qed.

(** C2.  A login whose address matches no stored user and a login whose
    address matches a stored user but whose password does not match the
    stored hash are answered alike: both are refused as unauthorised with
    the message "Invalid email or password". *)
Theorem login_failures_alike app
  loginTime1 uuid1 body1 users1 loginTime2 uuid2 body2 users2 user :
  mongo_db app = true ->
  lookupResult users1 (trim (body_email body1)) = None ->
  lookupResult users2 (trim (body_email body2)) = Some user ->
  bcrypt_compare (body_password body2) (passwordHash user) = false ->
  fst (run perform (login app loginTime1 uuid1 body1) users1)
    = Returned (Unauthorized "Invalid email or password")
  /\ fst (run perform (login app loginTime2 uuid2 body2) users2)
    = Returned (Unauthorized "Invalid email or password")
  /\ fst (run perform (login app loginTime1 uuid1 body1) users1)
    = fst (run perform (login app loginTime2 uuid2 body2) users2).
Proof.
  intros Hdb Habsent Hfound Hwrong.
  unfold run. rewrite !(login_exec _ _ _ _ _ Hdb). cbv zeta.
  rewrite Habsent, Hfound, Hwrong. simpl. repeat split; reflexivity.
Qed.

(** C3.  A login that finds the user [user]: when the password matches and
    the status is not [active], the answer is the forbidden reply whose
    message is "User is " followed by the status, so the message contains
    the status; a login that completes found an active user whose password
    matched; and when the password does not match the answer is the
    unauthorised reply whatever the status, the status being looked at only
    after the password check has passed. *)
Theorem login_status_check app loginTime uuid body users user :
  mongo_db app = true ->
  lookupResult users (trim (body_email body)) = Some user ->
  let out := fst (run perform (login app loginTime uuid body) users) in
  (bcrypt_compare (body_password body) (passwordHash user) = true ->
   status user <> active ->
   out = Returned (Forbidden ("User is " ++ statusText (status user)))
   /\ exists before after,
        ("User is " ++ statusText (status user))%string
        = (before ++ statusText (status user) ++ after)%string)
  /\ (forall r, out = Returned (LoggedIn r) ->
        status user = active
        /\ bcrypt_compare (body_password body) (passwordHash user) = true
        /\ user_status (Auth.user r) = active)
  /\ (bcrypt_compare (body_password body) (passwordHash user) = false ->
        out = Returned (Unauthorized invalidCredentials)).
Proof.
  intros Hdb Hfound out. subst out.
  unfold run. rewrite (login_exec _ _ _ _ _ Hdb). cbv zeta. rewrite Hfound.
  destruct (bcrypt_compare (body_password body) (passwordHash user));
    simpl; (split; [ | split ]).
  - intros _ Hstatus. destruct (status user) eqn:E; simpl;
      try (split; [ reflexivity | ]).
    + congruence.
    + exists "User is "%string, ""%string. reflexivity.
    + exists "User is "%string, ""%string. reflexivity.
    + exists "User is "%string, ""%string. reflexivity.
  - intros r. destruct (status user) eqn:E; simpl; intros Hr;
      try discriminate Hr.
    injection Hr as <-. simpl. auto.
  - discriminate.
  - discriminate.
  - intros r Hr. discriminate Hr.
  - reflexivity.
Qed.

(** C4, as the code has it.  After a successful login both tokens decode to
    payloads with the session identifier drawn for this login and with the
    user's identifier as subject; the kinds are [access] and [refresh]; the
    access token is signed with the configured access secret and lifetime
    and the refresh token with the configured refresh secret and lifetime,
    so the secrets (lifetimes) differ whenever the configured values
    differ. *)
Theorem login_tokens app loginTime uuid body users r :
  fst (run perform (login app loginTime uuid body) users) = Returned (LoggedIn r) ->
  exists u,
    lookupResult users (trim (body_email body)) = Some u
    /\ sessionId (decode (accessToken r)) = uuid
    /\ sessionId (decode (refreshToken r)) = uuid
    /\ sub (decode (accessToken r)) = toHexString (_id u)
    /\ sub (decode (refreshToken r)) = toHexString (_id u)
    /\ tokenType (decode (accessToken r)) = access
    /\ tokenType (decode (refreshToken r)) = refresh
    /\ tok_key (accessToken r) = JWT_ACCESS_SECRET (config app)
    /\ tok_key (refreshToken r) = JWT_REFRESH_SECRET (config app)
    /\ tok_expiresIn (accessToken r) = JWT_ACCESS_TTL (config app)
    /\ tok_expiresIn (refreshToken r) = JWT_REFRESH_TTL (config app)
    /\ (JWT_ACCESS_SECRET (config app) <> JWT_REFRESH_SECRET (config app) ->
        tok_key (accessToken r) <> tok_key (refreshToken r))
    /\ (JWT_ACCESS_TTL (config app) <> JWT_REFRESH_TTL (config app) ->
        tok_expiresIn (accessToken r) <> tok_expiresIn (refreshToken r)).
Proof.
  intros Hr. destruct (mongo_db app) eqn:Hdb.
  2: { unfold run, login in Hr. rewrite Hdb in Hr. discriminate Hr. }
  unfold run in Hr. rewrite (login_exec _ _ _ _ _ Hdb) in Hr. cbv zeta in Hr.
  destruct (lookupResult users (trim (body_email body))) as [u |];
    [ | discriminate Hr ].
  destruct (bcrypt_compare (body_password body) (passwordHash u));
    [ | discriminate Hr ].
  destruct (isActive (status u)); [ | discriminate Hr ].
  simpl in Hr. injection Hr as <-.
  exists u. simpl. repeat split; auto.
Qed.

(** C7.  A login that runs alone: when it completes it has performed
    exactly one write, an [updateOne] on the identifier of the user it
    found, which replaces the first record [d] with that identifier (the
    user itself when identifiers are distinct) by [d] with the last-login
    and update times set to the login instant, every other field and every
    other record being as before; when it does not complete it has
    performed no write and the collection is as before. *)
Theorem login_writes app loginTime uuid body users :
  let '(out, users', tr) := exec perform [] (login app loginTime uuid body) users in
  match out with
  | Returned (LoggedIn _) =>
      exists u l1 d l2,
        lookupResult users (trim (body_email body)) = Some u
        /\ writes tr
           = [ (UpdateOne (IdIs (_id u)) (mkLoginStamp loginTime loginTime), users) ]
        /\ users = l1 ++ d :: l2
        /\ _id d = _id u
        /\ (forall x, In x l1 -> _id x <> _id u)
        /\ (NoDup (map _id users) -> d = u)
        /\ users'
           = l1 ++ mkUserDocument (_id d) (createdAt d) loginTime (orgId d)
                     (roleId d) (designationId d) (email d) (passwordHash d)
                     (status d) (mobileNumber d) (Some loginTime) :: l2
  | _ => writes tr = [] /\ users' = users
  end.
Proof.
  destruct (mongo_db app) eqn:Hdb.
  2: { unfold login. rewrite Hdb. simpl. split; reflexivity. }
  rewrite (login_exec _ _ _ _ _ Hdb). cbv zeta.
  destruct (lookupResult users (trim (body_email body))) as [u |] eqn:Hfound.
  2: { split; [ apply lookupCalls_read_only | reflexivity ]. }
  assert (Hreads : forall ev, isWrite ev = false ->
            writes (lookupCalls users (trim (body_email body)) ++ [ev]) = []).
  { intros ev Hev. rewrite writes_app, lookupCalls_read_only.
    unfold writes. simpl. rewrite Hev. reflexivity. }
  destruct (bcrypt_compare (body_password body) (passwordHash u)); cbn [negb].
  2: { split; [ apply Hreads | ]; reflexivity. }
  destruct (isActive (status u)); cbn [negb].
  2: { split; [ apply Hreads | ]; reflexivity. }
  pose proof (lookupResult_stored _ _ _ Hfound) as Hin.
  destruct (updateOne_by_id users u (mkLoginStamp loginTime loginTime) Hin)
    as (l1 & d & l2 & Husers & Hd & Hl1 & Hupd).
  exists u, l1, d, l2. split; [ reflexivity | ]. split.
  { rewrite writes_app, lookupCalls_read_only. reflexivity. }
  split; [ assumption | ]. split; [ assumption | ]. split; [ assumption | ].
  split; [ | exact Hupd ].
  intros Hnodup. symmetry.
  apply (ListFacts.NoDup_map_eq _id users u d Hnodup Hin); [ | symmetry; assumption ].
  rewrite Husers. apply in_elt.
Qed.

End WithLibraries.

(** Worked examples on the sample data. *)
#[local] Existing Instance Sample.sampleLibraries.

Lemma login_failures_alike_witness :
  mongo_db Sample.sampleApp = true
  /\ lookupResult [Sample.ada] (trim (body_email (mkLoginBody "eve@example.com" "guess"))) = None
  /\ lookupResult [Sample.ada] (trim (body_email (mkLoginBody "Ada@Example.com " "guess")))
     = Some Sample.ada
  /\ bcrypt_compare "guess" (passwordHash Sample.ada) = false
  /\ fst (run perform (login Sample.sampleApp 1%Z "s-1" (mkLoginBody "eve@example.com" "guess"))
            [Sample.ada])
     = fst (run perform (login Sample.sampleApp 2%Z "s-2" (mkLoginBody "Ada@Example.com " "guess"))
              [Sample.ada]).
Proof.
  split; [ reflexivity | ]. split; [ reflexivity | ]. split; [ reflexivity | ].
  split; [ reflexivity | ].
  exact (proj2 (proj2
    (login_failures_alike (L := Sample.sampleLibraries) Sample.sampleApp
       1%Z "s-1" (mkLoginBody "eve@example.com" "guess") [Sample.ada]
       2%Z "s-2" (mkLoginBody "Ada@Example.com " "guess") [Sample.ada]
       Sample.ada eq_refl eq_refl eq_refl eq_refl))).
Defined.

Lemma login_status_check_witness :
  mongo_db Sample.sampleApp = true
  /\ lookupResult [Sample.ada; Sample.bob]
       (trim (body_email (mkLoginBody "bob@example.com" "battery staple")))
     = Some Sample.bob
  /\ bcrypt_compare "battery staple" (passwordHash Sample.bob) = true
  /\ status Sample.bob <> active
  /\ fst (run perform
            (login Sample.sampleApp 1%Z "s-1" (mkLoginBody "bob@example.com" "battery staple"))
            [Sample.ada; Sample.bob])
     = Returned (Forbidden "User is invited").
Proof.
  split; [ reflexivity | ]. split; [ reflexivity | ]. split; [ reflexivity | ].
  split; [ discriminate | ].
  destruct (login_status_check (L := Sample.sampleLibraries) Sample.sampleApp
              1%Z "s-1" (mkLoginBody "bob@example.com" "battery staple")
              [Sample.ada; Sample.bob] Sample.bob eq_refl eq_refl)
    as (Hforbidden & _ & _).
  refine (proj1 (Hforbidden eq_refl _)). discriminate.
Defined.

(** With one secret and one lifetime configured for both kinds of token, a
    successful login signs its two tokens with the same secret and the same
    lifetime. *)
Lemma login_tokens_shared_secret :
  exists r,
    fst (run perform
           (login Sample.sharedSecretApp 1%Z "s-1"
              (mkLoginBody "ada@example.com" "correct horse"))
           [Sample.ada])
    = Returned (LoggedIn r)
    /\ tok_key (accessToken r) = tok_key (refreshToken r)
    /\ tok_expiresIn (accessToken r) = tok_expiresIn (refreshToken r).
Proof. eexists. split; [ reflexivity | ]. split; reflexivity. Qed.

Lemma login_tokens_witness :
  exists u,
    lookupResult [Sample.ada]
      (trim (body_email (mkLoginBody "ada@example.com" "correct horse"))) = Some u
    /\ sessionId (decode (accessToken
                            (replyFor Sample.sampleApp 1%Z "s-1" Sample.ada))) = "s-1".
Proof.
  destruct (login_tokens (L := Sample.sampleLibraries) Sample.sampleApp 1%Z "s-1"
              (mkLoginBody "ada@example.com" "correct horse") [Sample.ada]
              (replyFor Sample.sampleApp 1%Z "s-1" Sample.ada) eq_refl)
    as (u & Hu & Hs & _).
  exists u. split; assumption.
Defined.

(** A login that completes: the reply, and the collection afterwards. *)
Example login_completes :
  run perform
    (login Sample.sampleApp 9%Z "s-9" (mkLoginBody " Ada@Example.com" "correct horse"))
    [Sample.bob; Sample.ada]
  = (Returned (LoggedIn (replyFor Sample.sampleApp 9%Z "s-9" Sample.ada)),
     [ Sample.bob;
       mkUserDocument Sample.oidA 0%Z 9%Z None None None
         "ada@example.com" "$2a$correct horse" active None (Some 9%Z) ]).
Proof. reflexivity. Qed.

End AuthFacts.

(* ================================================================== *)
(** * Part III: further properties of the code                         *)
(* ================================================================== *)

Module TextMore.
Import JsText OrganisationMore.

Lemma string_app_assoc (a b c : string) :
  ((a ++ b) ++ c)%string = (a ++ (b ++ c))%string.
Proof. induction a as [| x a IH]; simpl; [ | rewrite IH ]; reflexivity. Qed.

Lemma string_app_empty_r (a : string) : (a ++ "")%string = a.
Proof. induction a as [| x a IH]; simpl; [ | rewrite IH ]; reflexivity. Qed.

Lemma string_app_length (a b : string) :
  String.length (a ++ b) = String.length a + String.length b.
Proof. induction a as [| x a IH]; simpl; [ | rewrite IH ]; reflexivity. Qed.

Lemma forallChars_app p (a b : string) :
  forallChars p (a ++ b) = forallChars p a && forallChars p b.
Proof.
  induction a as [| x a IH]; simpl; [ reflexivity | ].
  rewrite IH. apply andb_assoc.
Qed.

(** *** [trim] and [toLowerCase] applied twice *)

Lemma lowerChar_whiteSpace c : isWhiteSpace (lowerChar c) = isWhiteSpace c.
Proof.
  destruct c as [b0 b1 b2 b3 b4 b5 b6 b7].
  destruct b0, b1, b2, b3, b4, b5, b6, b7; reflexivity.
Qed.

Lemma lowerChar_twice c : lowerChar (lowerChar c) = lowerChar c.
Proof.
  destruct c as [b0 b1 b2 b3 b4 b5 b6 b7].
  destruct b0, b1, b2, b3, b4, b5, b6, b7; reflexivity.
Qed.

Lemma toLowerCase_twice s : toLowerCase (toLowerCase s) = toLowerCase s.
Proof.
  induction s as [| c s IH]; simpl; [ reflexivity | ].
  rewrite lowerChar_twice, IH. reflexivity.
Qed.

Lemma trimStart_toLowerCase s :
  trimStart (toLowerCase s) = toLowerCase (trimStart s).
Proof.
  induction s as [| c s IH]; simpl; [ reflexivity | ].
  rewrite lowerChar_whiteSpace. destruct (isWhiteSpace c); [ exact IH | reflexivity ].
Qed.

Lemma trimEnd_toLowerCase s :
  trimEnd (toLowerCase s) = toLowerCase (trimEnd s).
Proof.
  induction s as [| c s IH]; simpl; [ reflexivity | ].
  rewrite IH, lowerChar_whiteSpace.
  destruct (trimEnd s) as [| c' r']; simpl; [ | reflexivity ].
  destruct (isWhiteSpace c); reflexivity.
Qed.

Lemma trim_toLowerCase s : trim (toLowerCase s) = toLowerCase (trim s).
Proof. unfold trim. rewrite trimStart_toLowerCase. apply trimEnd_toLowerCase. Qed.

Lemma trimStart_startsClean s : startsClean (trimStart s).
Proof.
  induction s as [| c s IH]; simpl; [ exact I | ].
  destruct (isWhiteSpace c) eqn:E; [ exact IH | exact E ].
Qed.

Lemma trimStart_clean s : startsClean s -> trimStart s = s.
Proof.
  destruct s as [| c s]; simpl; [ reflexivity | ].
  intros ->. reflexivity.
Qed.

Lemma trimEnd_startsClean s : startsClean s -> startsClean (trimEnd s).
Proof.
  destruct s as [| c s]; simpl; [ exact (fun H => H) | ].
  intros Hc. destruct (trimEnd s); [ rewrite Hc | ]; exact Hc.
Qed.

Lemma trimEnd_twice s : trimEnd (trimEnd s) = trimEnd s.
Proof.
  induction s as [| c s IH]; simpl; [ reflexivity | ].
  destruct (trimEnd s) as [| c' r'] eqn:E.
  - destruct (isWhiteSpace c) eqn:Hc; simpl; [ | rewrite Hc ]; reflexivity.
  - change (trimEnd (String c (String c' r')) = String c (String c' r')).
    simpl in IH |- *. destruct (trimEnd r') as [| c'' r''] eqn:E'.
    + destruct (isWhiteSpace c'); [ discriminate IH | ].
      injection IH as <-. reflexivity.
    + injection IH as <-. reflexivity.
Qed.

Lemma trim_twice s : trim (trim s) = trim s.
Proof.
  unfold trim.
  rewrite (trimStart_clean (trimEnd (trimStart s))).
  - apply trimEnd_twice.
  - apply trimEnd_startsClean, trimStart_startsClean.
Qed.

Lemma normalise_twice s :
  toLowerCase (trim (toLowerCase (trim s))) = toLowerCase (trim s).
Proof. rewrite trim_toLowerCase, trim_twice. apply toLowerCase_twice. Qed.

(** *** What the derivative matcher accepts *)

Lemma test_Alt a b s : test (Alt a b) s = test a s || test b s.
Proof.
  revert a b. induction s as [| c s IH]; intros a b; simpl; [ reflexivity | ].
  apply IH.
Qed.

Lemma test_Seq a b s :
  test (Seq a b) s = true <->
  exists s1 s2, s = (s1 ++ s2)%string /\ test a s1 = true /\ test b s2 = true.
Proof.
  revert a. induction s as [| c s IH]; intros a.
  - simpl. rewrite andb_true_iff. split.
    + intros [Ha Hb]. exists EmptyString, EmptyString. auto.
    + intros (s1 & s2 & E & Ha & Hb).
      destruct s1; [ | discriminate ]. destruct s2; [ | discriminate ]. auto.
  - simpl. destruct (nullable a) eqn:Hn.
    + rewrite test_Alt, orb_true_iff, IH. split.
      * intros [(s1 & s2 & -> & Ha & Hb) | Hb].
        -- exists (String c s1), s2. auto.
        -- exists EmptyString, (String c s). auto.
      * intros (s1 & s2 & E & Ha & Hb). destruct s1 as [| c1 s1]; simpl in E.
        -- right. subst s2. exact Hb.
        -- injection E as <- ->. left. exists s1, s2. auto.
    + rewrite IH. split.
      * intros (s1 & s2 & -> & Ha & Hb). exists (String c s1), s2. auto.
      * intros (s1 & s2 & E & Ha & Hb). destruct s1 as [| c1 s1]; simpl in E.
        -- simpl in Ha. congruence.
        -- injection E as <- ->. exists s1, s2. auto.
Qed.

Lemma test_Star_cons r c s :
  test (Star r) (String c s) = true <->
  exists s1 s2, s = (s1 ++ s2)%string
                /\ test r (String c s1) = true /\ test (Star r) s2 = true.
Proof. simpl. apply test_Seq. Qed.

Lemma test_Seq_Eps r s : test (Seq Eps r) s = test r s.
Proof.
  destruct s as [| c s]; simpl; [ reflexivity | ].
  rewrite test_Alt.
  rewrite (JsTextFacts.void_rejects s (Seq Void r) eq_refl). reflexivity.
Qed.

Lemma test_Class p s :
  test (Class p) s = true <-> exists c, s = String c EmptyString /\ p c = true.
Proof.
  destruct s as [| c s]; simpl.
  - split; [ discriminate | intros (c & E & _); discriminate E ].
  - destruct (p c) eqn:Hp.
    + destruct s as [| c' s]; simpl.
      * split; [ intros _; exists c; auto | reflexivity ].
      * rewrite (JsTextFacts.void_rejects s Void eq_refl).
        split; [ discriminate | intros (x & E & _); discriminate E ].
    + rewrite (JsTextFacts.void_rejects s Void eq_refl).
      split; [ discriminate | ].
      intros (x & E & Hx). injection E as <- _. congruence.
Qed.

Lemma test_Star_Class p s : test (Star (Class p)) s = forallChars p s.
Proof.
  induction s as [| c s IH]; [ reflexivity | ].
  change (test (Seq (if p c then Eps else Void) (Star (Class p))) s
          = p c && forallChars p s).
  destruct (p c); simpl.
  - rewrite test_Seq_Eps. exact IH.
  - apply (JsTextFacts.void_rejects s (Seq Void (Star (Class p))) eq_refl).
Qed.

Lemma test_Plus_Class p s :
  test (Plus (Class p)) s = true <-> s <> EmptyString /\ forallChars p s = true.
Proof.
  destruct s as [| c s].
  - simpl. split; [ discriminate | intros [Hne _]; congruence ].
  - change (test (Seq (if p c then Eps else Void) (Star (Class p))) s = true
            <-> String c s <> EmptyString /\ p c && forallChars p s = true).
    destruct (p c); simpl.
    + rewrite test_Seq_Eps, test_Star_Class.
      split; [ intros Hs; split; [ discriminate | exact Hs ] | tauto ].
    + rewrite (JsTextFacts.void_rejects s (Seq Void (Star (Class p))) eq_refl).
      split; [ discriminate | intros [_ Hf]; discriminate Hf ].
Qed.

Lemma test_hyphen_word s :
  test (Seq (Class isHyphen) (Plus (Class lowerAlnum))) s = true <->
  exists w, isWord w /\ s = String "-" w.
Proof.
  rewrite test_Seq. split.
  - intros (s1 & s2 & -> & H1 & H2).
    apply test_Class in H1 as (c & -> & Hc).
    apply test_Plus_Class in H2.
    unfold isHyphen in Hc. apply Ascii.eqb_eq in Hc. subst c.
    exists s2. split; [ exact H2 | reflexivity ].
  - intros (w & Hw & ->). exists (String "-" EmptyString), w.
    split; [ reflexivity | ]. split.
    + apply test_Class. exists "-"%char. auto.
    + apply test_Plus_Class. exact Hw.
Qed.

Lemma test_tail_words n :
  forall s, String.length s <= n ->
  test (Star (Seq (Class isHyphen) (Plus (Class lowerAlnum)))) s = true ->
  exists ws, Forall isWord ws /\ s = hyphenated ws.
Proof.
  induction n as [| n IH]; intros s Hlen Ht.
  - destruct s; [ | simpl in Hlen; lia ]. exists []. auto.
  - destruct s as [| c s]; [ exists []; auto | ].
    apply test_Star_cons in Ht as (s1 & s2 & -> & H1 & H2).
    apply test_hyphen_word in H1 as (w & Hw & E). injection E as -> ->.
    destruct (IH s2) as (ws & Hws & ->); [ | exact H2 | ].
    + simpl in Hlen. rewrite string_app_length in Hlen. lia.
    + exists (w :: ws). split; [ constructor; assumption | reflexivity ].
Qed.

Lemma test_words_tail ws :
  Forall isWord ws ->
  test (Star (Seq (Class isHyphen) (Plus (Class lowerAlnum)))) (hyphenated ws) = true.
Proof.
  induction 1 as [| w ws Hw _ IH]; [ reflexivity | ].
  change (hyphenated (w :: ws)) with (String "-" (w ++ hyphenated ws)).
  apply test_Star_cons. exists w, (hyphenated ws).
  split; [ reflexivity | ]. split; [ | exact IH ].
  apply test_hyphen_word. exists w. auto.
Qed.

Lemma concat_hyphenated w ws :
  String.concat "-" (w :: ws) = (w ++ hyphenated ws)%string.
Proof.
  revert w. induction ws as [| w' ws IH]; intros w.
  - simpl. symmetry. apply string_app_empty_r.
  - change (String.concat "-" (w :: w' :: ws))
      with (w ++ "-" ++ String.concat "-" (w' :: ws))%string.
    rewrite IH. reflexivity.
Qed.

(** X10.  The slug pattern accepts exactly the strings made of one or more
    words joined by single hyphens, a word being a non-empty run of
    lower-case ASCII letters and digits; so the empty string, capitals,
    white space, a leading or trailing hyphen and a doubled hyphen are all
    refused. *)
Theorem kebabPattern_language s :
  test kebabPattern s = true <->
  exists w ws, isWord w /\ Forall isWord ws /\ s = String.concat "-" (w :: ws).
Proof.
  unfold kebabPattern. rewrite test_Seq. split.
  - intros (s1 & s2 & -> & H1 & H2).
    apply test_Plus_Class in H1.
    destruct (test_tail_words (String.length s2) s2 (le_n _) H2) as (ws & Hws & ->).
    exists s1, ws. rewrite concat_hyphenated. auto.
  - intros (w & ws & Hw & Hws & ->). rewrite concat_hyphenated.
    exists w, (hyphenated ws). split; [ reflexivity | ]. split.
    + apply test_Plus_Class. exact Hw.
    + apply test_words_tail. exact Hws.
Qed.

End TextMore.

Module OrganisationMoreFacts.
Import JsText Effects Lib Organisation OrganisationMore.
Import Repository (Store, hasId, hasSlug, findById, findBySlug, perform).
Import LibFacts ListFacts OrganisationFacts.

Local Arguments Repository.findById : simpl never.
Local Arguments Repository.findBySlug : simpl never.
Local Arguments Repository.create : simpl never.
Local Arguments Repository.updateById : simpl never.
Local Arguments Repository.deleteById : simpl never.
Local Arguments interfere {S} !others s /.

Lemma statusFilter_spec status d :
  statusFilter status d = true <->
  (forall wanted, status = Some wanted -> Organisation.status d = wanted).
Proof.
  destruct status as [wanted |]; simpl.
  - destruct wanted, (Organisation.status d); split; intros Hs;
      try reflexivity; try discriminate Hs;
      try (intros w E; injection E as <-; reflexivity);
      specialize (Hs _ eq_refl); discriminate Hs.
  - split; [ intros _ w E; discriminate E | reflexivity ].
Qed.

Lemma insertNewestFirst_perm d l : Permutation (insertNewestFirst d l) (d :: l).
Proof.
  induction l as [| x l IH]; simpl; [ apply Permutation_refl | ].
  destruct (Z.leb (createdAt x) (createdAt d)); [ apply Permutation_refl | ].
  apply perm_trans with (x :: d :: l); [ | apply perm_swap ].
  apply perm_skip. exact IH.
Qed.

Lemma sortNewestFirst_perm l : Permutation (sortNewestFirst l) l.
Proof.
  induction l as [| d l IH]; simpl; [ apply perm_nil | ].
  apply perm_trans with (d :: sortNewestFirst l).
  - apply insertNewestFirst_perm.
  - apply perm_skip. exact IH.
Qed.

Lemma insertNewestFirst_sorted d l :
  StronglySorted newerFirst l -> StronglySorted newerFirst (insertNewestFirst d l).
Proof.
  induction 1 as [| x l Hs IH Hx]; simpl.
  - constructor; constructor.
  - destruct (Z.leb (createdAt x) (createdAt d)) eqn:Hle.
    + apply Z.leb_le in Hle. constructor; [ constructor; assumption | ].
      constructor; [ exact Hle | ].
      apply Forall_forall. intros y Hy.
      pose proof (proj1 (Forall_forall _ _) Hx y Hy) as Hxy.
      unfold newerFirst in *. lia.
    + apply Z.leb_gt in Hle. constructor; [ exact IH | ].
      apply (Permutation_Forall (Permutation_sym (insertNewestFirst_perm d l))).
      constructor; [ unfold newerFirst; lia | exact Hx ].
Qed.

Lemma sortNewestFirst_sorted l : StronglySorted newerFirst (sortNewestFirst l).
Proof.
  induction l as [| d l IH]; simpl; [ constructor | ].
  apply insertNewestFirst_sorted. exact IH.
Qed.

Section WithLibraries.
Context {L : Libraries}.

(** X1.  [list] never fails and leaves the collection alone; it returns the
    views of exactly the stored organisations that have the requested
    status (of all of them when no status is given), each as often as it is
    stored, ordered by creation time with the newest first. *)
Theorem list_newest_first status st :
  exists docs,
    run performList (Service.list status) st
    = (Returned (map toOrganisationResponse docs), st)
    /\ Permutation docs (filter (statusFilter status) st)
    /\ (forall d, In d docs <->
          In d st /\ (forall wanted, status = Some wanted ->
                                     Organisation.status d = wanted))
    /\ StronglySorted (fun a b => (createdAt b <= createdAt a)%Z) docs.
Proof.
  exists (findAll status st). split; [ reflexivity | ]. split; [ | split ].
  - apply sortNewestFirst_perm.
  - intros d. rewrite <- statusFilter_spec, <- filter_In. split.
    + apply Permutation_in, sortNewestFirst_perm.
    + apply Permutation_in, Permutation_sym, sortNewestFirst_perm.
  - apply sortNewestFirst_sorted.
Qed.

Lemma findBySlug_holder s st d :
  In d st -> slug d = s -> exists e, findBySlug s st = Some e.
Proof.
  intros Hd Hs. destruct (findBySlug s st) as [e |] eqn:Hf; [ eauto | ].
  destruct (proj1 (findBySlug_none _ _) Hf d Hd Hs).
Qed.

Lemma findById_split oid st d :
  findById oid st = Some d ->
  exists l1 l2, st = l1 ++ d :: l2 /\ _id d = oid
                /\ (forall x, In x l1 -> _id x <> oid)
                /\ (forall x, In x l1 -> hasId oid x = false).
Proof.
  intros Hf. destruct (findById_some _ _ _ Hf) as [_ Hid].
  unfold findById in Hf.
  destruct (find_first _ _ _ Hf) as (l1 & l2 & -> & _ & Hl1).
  exists l1, l2. repeat split; auto.
  intros x Hx E. specialize (Hl1 x Hx). unfold hasId in Hl1.
  rewrite E, equals_refl in Hl1. discriminate.
Qed.

Lemma findById_after_removal oid l1 d l2 :
  NoDup (map _id (l1 ++ d :: l2)) -> _id d = oid ->
  findById oid (l1 ++ l2) = None.
Proof.
  intros Hnd Hid. apply findById_none. intros x Hx E.
  rewrite map_app in Hnd. simpl in Hnd. apply NoDup_remove_2 in Hnd.
  apply Hnd. rewrite <- map_app, Hid, <- E. apply in_map. exact Hx.
Qed.

(** How an [update] that runs alone ends, case by case. *)
Lemma update_outcome insertedId now id input st :
  ObjectId_isValid id = true ->
  let out := run (perform insertedId) (update now id input) st in
  (out = (Raised OrganisationNotFoundError, st)
   /\ findById (ObjectId_new id) st = None)
  \/ (out = (Raised OrganisationSlugTakenError, st))
  \/ (exists l1 d l2,
        findById (ObjectId_new id) st = Some d
        /\ st = l1 ++ d :: l2
        /\ (forall x, In x l1 -> _id x <> ObjectId_new id)
        /\ out = (Returned (toOrganisationResponse
                              (Repository.applySet (updatePayload now input) d)),
                  l1 ++ Repository.applySet (updatePayload now input) d :: l2)
        /\ (forall s, upd_slug input = Some s ->
              normaliseSlug s = slug d
              \/ findBySlug (normaliseSlug s) st = None
              \/ exists e, findBySlug (normaliseSlug s) st = Some e
                           /\ _id e = _id d)).
Proof.
  intros Hvalid out. subst out. rewrite (update_run _ _ _ _ _ Hvalid).
  destruct (findById (ObjectId_new id) st) as [d |] eqn:Hload;
    [ | left; auto ].
  destruct (findById_split _ _ _ Hload) as (l1 & l2 & Hst & Hid & Hl1 & Hl1b).
  assert (Hupd : Repository.updateById (_id d) (updatePayload now input) st
                 = (Some (Repository.applySet (updatePayload now input) d),
                    l1 ++ Repository.applySet (updatePayload now input) d :: l2)).
  { unfold Repository.updateById. rewrite Hid, Hst.
    apply findOneAndUpdate_first; [ | exact Hl1b ].
    unfold hasId. rewrite Hid. apply equals_refl. }
  cbv zeta. rewrite Hupd. unfold written.
  destruct (upd_slug input) as [s |] eqn:Hs.
  - destruct (String.eqb (normaliseSlug s) (slug d)) eqn:Hsame.
    + right; right. exists l1, d, l2.
      split; [ reflexivity | ]. split; [ exact Hst | ]. split; [ exact Hl1 | ].
      split; [ reflexivity | ].
      intros s' E. injection E as <-. left. apply String.eqb_eq. exact Hsame.
    + destruct (findBySlug (normaliseSlug s) st) as [e |] eqn:Hfind.
      * destruct (equals (_id e) (_id d)) eqn:Heq.
        -- right; right. exists l1, d, l2.
           split; [ reflexivity | ]. split; [ exact Hst | ]. split; [ exact Hl1 | ].
           split; [ reflexivity | ].
           intros s' E. injection E as <-. right; right. exists e.
           split; [ exact Hfind | ]. apply equals_eq. exact Heq.
        -- right; left. reflexivity.
      * right; right. exists l1, d, l2.
        split; [ reflexivity | ]. split; [ exact Hst | ]. split; [ exact Hl1 | ].
        split; [ reflexivity | ].
        intros s' E. injection E as <-. right; left. exact Hfind.
  - right; right. exists l1, d, l2.
    split; [ reflexivity | ]. split; [ exact Hst | ]. split; [ exact Hl1 | ].
    split; [ reflexivity | ].
    intros s' E. discriminate E.
Qed.

(** X2.  Insert, then look up: when the hexadecimal rendering of the
    generated identifier is accepted by the identifier check and parses
    back to that identifier, [getById] on the id of the view returned by a
    successful [create] returns that same view. *)
Theorem create_then_getById insertedId otherId now input st view :
  ObjectId_isValid (toHexString insertedId) = true ->
  ObjectId_new (toHexString insertedId) = insertedId ->
  fst (run (perform insertedId) (create now input) st) = Returned view ->
  let st' := snd (run (perform insertedId) (create now input) st) in
  res_id view = toHexString insertedId
  /\ run (perform otherId) (getById (res_id view)) st' = (Returned view, st').
Proof.
  intros Hvalid Hparse. rewrite create_run.
  destruct (findBySlug _ st); [ discriminate | ].
  unfold Repository.create.
  destruct (existsb (hasId insertedId) st) eqn:Hused; [ discriminate | ].
  simpl. intros E. injection E as <-. simpl. split; [ reflexivity | ].
  rewrite getById_run, Hvalid, Hparse.
  unfold findById. rewrite (find_after_update (hasId insertedId) st _ []).
  - reflexivity.
  - unfold hasId. simpl. apply equals_refl.
  - intros x Hx. destruct (hasId insertedId x) eqn:Hh; [ | reflexivity ].
    assert (Ht : existsb (hasId insertedId) st = true).
    { apply existsb_exists. eauto. }
    congruence.
Qed.

(** X3.  A [create] whose slug normalises to the slug of a stored record
    is refused with the slug-taken error and stores nothing.  A [create]
    that has returned leaves such a record behind, so a [create] with the
    same normalised slug is refused on the collection it left, and on every
    later collection that still holds a record with that slug. *)
Theorem create_same_slug_refused id1 id2 now1 now2 input1 input2 st view :
  fst (run (perform id1) (create now1 input1) st) = Returned view ->
  normaliseSlug (in_slug input2) = normaliseSlug (in_slug input1) ->
  let st' := snd (run (perform id1) (create now1 input1) st) in
  (exists d, In d st' /\ slug d = normaliseSlug (in_slug input1))
  /\ run (perform id2) (create now2 input2) st'
     = (Raised OrganisationSlugTakenError, st')
  /\ (forall later d,
        In d later -> slug d = normaliseSlug (in_slug input1) ->
        run (perform id2) (create now2 input2) later
        = (Raised OrganisationSlugTakenError, later)).
Proof.
  intros Hok Hsame.
  assert (Hrefused : forall later d,
            In d later -> slug d = normaliseSlug (in_slug input1) ->
            run (perform id2) (create now2 input2) later
            = (Raised OrganisationSlugTakenError, later)).
  { intros later d Hd Hs. rewrite create_run, Hsame.
    destruct (findBySlug_holder _ later d Hd Hs) as (e & ->). reflexivity. }
  assert (Hleft : exists d,
            In d (snd (run (perform id1) (create now1 input1) st))
            /\ slug d = normaliseSlug (in_slug input1)).
  { rewrite create_run in Hok |- *.
    destruct (findBySlug (normaliseSlug (in_slug input1)) st); [ discriminate | ].
    unfold Repository.create in *.
    destruct (existsb (hasId id1) st); [ discriminate | ].
    simpl. eexists. split; [ apply in_elt | reflexivity ]. }
  cbv zeta. split; [ exact Hleft | ]. split; [ | exact Hrefused ].
  destruct Hleft as (d & Hd & Hs). exact (Hrefused _ d Hd Hs).
Qed.

(** X4.  [delete] of a stored identifier returns, removes the first record
    with that identifier and keeps every other record in place; when the
    identifiers of the collection are distinct, the identifier resolves to
    nothing afterwards, so a second [delete] and a [getById] fail with
    not-found. *)
Theorem delete_removes_record insertedId id st d :
  ObjectId_isValid id = true ->
  findById (ObjectId_new id) st = Some d ->
  exists l1 l2,
    st = l1 ++ d :: l2
    /\ (forall x, In x l1 -> _id x <> ObjectId_new id)
    /\ run (perform insertedId) (delete id) st = (Returned tt, l1 ++ l2)
    /\ (NoDup (map _id st) ->
        fst (run (perform insertedId) (delete id) (l1 ++ l2))
          = Raised OrganisationNotFoundError
        /\ fst (run (perform insertedId) (getById id) (l1 ++ l2))
          = Raised OrganisationNotFoundError).
Proof.
  intros Hvalid Hfound.
  destruct (findById_split _ _ _ Hfound) as (l1 & l2 & Hst & Hid & Hl1 & Hl1b).
  exists l1, l2. split; [ exact Hst | ]. split; [ exact Hl1 | ]. split.
  - rewrite delete_run, Hvalid. unfold Repository.deleteById. rewrite Hst.
    rewrite (deleteOne_first (hasId (ObjectId_new id)) l1 d l2); [ reflexivity | | exact Hl1b ].
    unfold hasId. rewrite Hid. apply equals_refl.
  - intros Hnd. rewrite Hst in Hnd.
    pose proof (findById_after_removal _ _ _ _ Hnd Hid) as Hgone.
    rewrite delete_run, getById_run, Hvalid, Hgone.
    rewrite (deleteById_absent _ _ Hgone). split; reflexivity.
Qed.

(** X5.  In a collection with distinct slugs, deleting an organisation
    frees its slug: a later [create] whose slug normalises to the deleted
    record's slug is not refused as taken, and returns a view with that
    slug when the generated identifier is unused. *)
Theorem delete_frees_slug insertedId newId id now input st d :
  ObjectId_isValid id = true ->
  findById (ObjectId_new id) st = Some d ->
  NoDup (map slug st) ->
  normaliseSlug (in_slug input) = slug d ->
  let st' := snd (run (perform insertedId) (delete id) st) in
  fst (run (perform newId) (create now input) st')
    <> Raised OrganisationSlugTakenError
  /\ ((forall x, In x st' -> _id x <> newId) ->
      exists view,
        fst (run (perform newId) (create now input) st') = Returned view
        /\ res_slug view = slug d).
Proof.
  intros Hvalid Hfound Hnd Hslug.
  destruct (findById_split _ _ _ Hfound) as (l1 & l2 & Hst & Hid & Hl1 & Hl1b).
  assert (Hdel : run (perform insertedId) (delete id) st = (Returned tt, l1 ++ l2)).
  { rewrite delete_run, Hvalid. unfold Repository.deleteById. rewrite Hst.
    rewrite (deleteOne_first (hasId (ObjectId_new id)) l1 d l2); [ reflexivity | | exact Hl1b ].
    unfold hasId. rewrite Hid. apply equals_refl. }
  cbv zeta. rewrite Hdel. simpl.
  assert (Hfree : findBySlug (slug d) (l1 ++ l2) = None).
  { apply findBySlug_none. intros x Hx E.
    rewrite Hst, map_app in Hnd. simpl in Hnd. apply NoDup_remove_2 in Hnd.
    apply Hnd. rewrite <- map_app, <- E. apply in_map. exact Hx. }
  rewrite create_run, Hslug, Hfree. unfold Repository.create.
  destruct (existsb (hasId newId) (l1 ++ l2)) eqn:Hused; simpl.
  - split; [ discriminate | ]. intros Hunused.
    apply existsb_hasId_false in Hunused. congruence.
  - split; [ discriminate | ]. intros _. eexists. split; reflexivity.
Qed.

(** X6.  A service call that does not return leaves the collection exactly
    as it was, and [getById] never changes it: [create], [update] and
    [delete] store nothing unless they succeed. *)
Theorem failed_calls_store_nothing insertedId now id st :
  snd (run (perform insertedId) (getById id) st) = st
  /\ (forall input,
        (forall view, fst (run (perform insertedId) (create now input) st)
                      <> Returned view) ->
        snd (run (perform insertedId) (create now input) st) = st)
  /\ (forall input,
        (forall view, fst (run (perform insertedId) (update now id input) st)
                      <> Returned view) ->
        snd (run (perform insertedId) (update now id input) st) = st)
  /\ (fst (run (perform insertedId) (delete id) st) <> Returned tt ->
      snd (run (perform insertedId) (delete id) st) = st).
Proof.
  split; [ | split; [ | split ] ].
  - rewrite getById_run. destruct (ObjectId_isValid id); [ | reflexivity ].
    destruct (findById (ObjectId_new id) st); reflexivity.
  - intros input Hfail. rewrite create_run in Hfail |- *.
    destruct (findBySlug _ st); [ reflexivity | ].
    destruct (Repository.create _ _ st) as [[d st'] |]; [ | reflexivity ].
    destruct (Hfail _ eq_refl).
  - intros input Hfail. destruct (ObjectId_isValid id) eqn:Hvalid.
    + destruct (update_outcome insertedId now id input st Hvalid)
        as [[-> _] | [-> | (l1 & d & l2 & _ & _ & _ & Hout & _)]];
        try reflexivity.
      rewrite Hout in Hfail. destruct (Hfail _ eq_refl).
    + rewrite (update_invalid_id _ _ _ _ _ Hvalid). reflexivity.
  - rewrite delete_run. destruct (ObjectId_isValid id); [ | reflexivity ].
    destruct (findById (ObjectId_new id) st) as [d |] eqn:Hf.
    + destruct (deleteById_found _ _ _ Hf) as (l1 & l2 & _ & ->). simpl.
      intros Hfail. destruct (Hfail eq_refl).
    + rewrite (deleteById_absent _ _ Hf). reflexivity.
Qed.

(** X7.  An [update] that returns has rewritten exactly one record, the
    first one with the given identifier: the records before and after it
    are untouched and none is added or removed; and a [getById] of the same
    id right afterwards returns the view that [update] returned. *)
Theorem update_touches_one_record insertedId otherId now id input st view :
  fst (run (perform insertedId) (update now id input) st) = Returned view ->
  let st' := snd (run (perform insertedId) (update now id input) st) in
  (exists l1 d l2,
     st = l1 ++ d :: l2
     /\ _id d = ObjectId_new id
     /\ (forall x, In x l1 -> _id x <> ObjectId_new id)
     /\ st' = l1 ++ Repository.applySet (updatePayload now input) d :: l2
     /\ view = toOrganisationResponse
                 (Repository.applySet (updatePayload now input) d))
  /\ length st' = length st
  /\ run (perform otherId) (getById id) st' = (Returned view, st').
Proof.
  intros Hok. destruct (ObjectId_isValid id) eqn:Hvalid.
  2: { rewrite (update_invalid_id _ _ _ _ _ Hvalid) in Hok. discriminate Hok. }
  destruct (update_outcome insertedId now id input st Hvalid)
    as [[Hout _] | [Hout | (l1 & d & l2 & Hload & Hst & Hl1 & Hout & _)]];
    rewrite Hout in Hok; try discriminate Hok.
  simpl in Hok. injection Hok as <-. cbv zeta. rewrite Hout. simpl.
  destruct (findById_some _ _ _ Hload) as [_ Hid].
  split; [ | split ].
  - exists l1, d, l2. auto.
  - rewrite Hst, !length_app. reflexivity.
  - rewrite getById_run, Hvalid. unfold findById.
    rewrite (find_after_update (hasId (ObjectId_new id)) l1 _ l2).
    + reflexivity.
    + unfold hasId. simpl. rewrite Hid. apply equals_refl.
    + intros x Hx. specialize (Hl1 x Hx). unfold hasId.
      destruct (equals (_id x) (ObjectId_new id)) eqn:E; [ | reflexivity ].
      apply equals_eq in E. contradiction.
Qed.

(** X8.  Normalising twice is normalising once, for slugs and for names,
    and trimming first does not change what a slug normalises to; so a
    slug or a name read back from a view and sent again is stored
    unchanged. *)
Theorem normalisation_idempotent s :
  normaliseSlug (normaliseSlug s) = normaliseSlug s
  /\ normaliseName (normaliseName s) = normaliseName s
  /\ normaliseSlug (normaliseName s) = normaliseSlug s.
Proof.
  unfold normaliseSlug, normaliseName. split; [ | split ].
  - apply TextMore.normalise_twice.
  - apply TextMore.trim_twice.
  - rewrite TextMore.trim_twice. reflexivity.
Qed.

Lemma normalised_create insertedId now input st :
  normalised st ->
  normalised (snd (run (perform insertedId) (create now input) st)).
Proof.
  intros (Hids & Hslugs & Hfmt). rewrite create_run.
  destruct (findBySlug (normaliseSlug (in_slug input)) st) as [e |] eqn:Hfind;
    [ repeat split; assumption | ].
  unfold Repository.create.
  destruct (existsb (hasId insertedId) st) eqn:Hused; simpl;
    [ repeat split; assumption | ].
  pose proof (proj1 (findBySlug_none _ _) Hfind) as Hfree.
  pose proof (proj1 (existsb_hasId_false _ _) Hused) as Hunused.
  unfold normalised. rewrite !map_app. simpl. split; [ | split ].
  - apply NoDup_snoc; [ assumption | ].
    intros Hin. apply in_map_iff in Hin as (d & Hd & Hin).
    exact (Hunused d Hin Hd).
  - apply NoDup_snoc; [ assumption | ].
    intros Hin. apply in_map_iff in Hin as (d & Hd & Hin).
    exact (Hfree d Hin Hd).
  - apply Forall_app. split; [ assumption | ].
    constructor; [ | constructor ]. simpl. split.
    + apply TextMore.normalise_twice.
    + apply TextMore.trim_twice.
Qed.

Lemma normalised_update insertedId now id input st :
  normalised st ->
  normalised (snd (run (perform insertedId) (update now id input) st)).
Proof.
  intros Hn. destruct (ObjectId_isValid id) eqn:Hvalid.
  2: { rewrite (update_invalid_id _ _ _ _ _ Hvalid). exact Hn. }
  destruct (update_outcome insertedId now id input st Hvalid)
    as [[-> _] | [-> | (l1 & d & l2 & Hload & Hst & Hl1 & -> & Hcond)]];
    try exact Hn.
  simpl. destruct Hn as (Hids & Hslugs & Hfmt).
  destruct (findById_some _ _ _ Hload) as [Hd _].
  unfold normalised. rewrite !map_app. simpl. split; [ | split ].
  - rewrite Hst, map_app in Hids. exact Hids.
  - pose proof Hslugs as Hslugs'. rewrite Hst, map_app in Hslugs'. simpl in Hslugs'.
    apply (NoDup_replace _ _ (slug d)); [ exact Hslugs' | ].
    destruct (upd_slug input) as [s |] eqn:Hs; simpl; [ | left; reflexivity ].
    destruct (Hcond s eq_refl) as [E | [Hnone | (e & Hfind & Heq)]].
    + left. exact E.
    + right. intros Hin.
      change (In (normaliseSlug s) (map slug l1 ++ map slug (d :: l2))) in Hin.
      rewrite <- map_app, <- Hst in Hin.
      apply in_map_iff in Hin as (x & Hx & Hin).
      exact (proj1 (findBySlug_none _ _) Hnone x Hin Hx).
    + left. apply findBySlug_some in Hfind as [He Hes].
      pose proof (NoDup_map_eq _id st e d Hids He Hd Heq) as ->.
      symmetry. exact Hes.
  - rewrite Hst in Hfmt. apply Forall_app in Hfmt as [Hf1 Hf2].
    apply Forall_cons_iff in Hf2 as [[Hds Hdn] Hf2].
    apply Forall_app. split; [ exact Hf1 | ].
    constructor; [ | exact Hf2 ]. simpl. split.
    + destruct (upd_slug input); simpl;
        [ apply TextMore.normalise_twice | exact Hds ].
    + destruct (upd_name input); simpl;
        [ apply TextMore.trim_twice | exact Hdn ].
Qed.

Lemma normalised_delete insertedId id st :
  normalised st ->
  normalised (snd (run (perform insertedId) (delete id) st)).
Proof.
  intros Hn. rewrite delete_run.
  destruct (ObjectId_isValid id); [ | exact Hn ].
  destruct (findById (ObjectId_new id) st) as [d |] eqn:Hfind.
  - destruct (deleteById_found _ _ _ Hfind) as (l1 & l2 & Hst & ->). simpl.
    destruct Hn as (Hids & Hslugs & Hfmt).
    rewrite Hst in Hids, Hslugs, Hfmt.
    unfold normalised. rewrite !map_app in *. simpl in *. repeat split.
    + eapply NoDup_remove_1; eassumption.
    + eapply NoDup_remove_1; eassumption.
    + apply Forall_app in Hfmt as [Hf1 Hf2].
      apply Forall_cons_iff in Hf2 as [_ Hf2].
      apply Forall_app. split; assumption.
  - rewrite (deleteById_absent _ _ Hfind). exact Hn.
Qed.

(** X9.  Whatever the inputs, validated or not: in every collection that
    service calls made one after the other produce from the empty one, the
    identifiers are distinct, the slugs are distinct, every stored slug is
    trimmed and lower-case (a fixed point of the slug normalisation) and
    every stored name is trimmed. *)
Theorem service_keeps_normalised st :
  serviceReachable st ->
  NoDup (map _id st)
  /\ NoDup (map slug st)
  /\ Forall (fun d => toLowerCase (trim (slug d)) = slug d
                      /\ trim (name d) = name d) st.
Proof.
  induction 1 as [| insertedId c st _ IH].
  - repeat split; constructor.
  - destruct c as [id | now input | now id input | id]; simpl.
    + rewrite getById_run. destruct (ObjectId_isValid id); [ | exact IH ].
      destruct (findById (ObjectId_new id) st); exact IH.
    + apply normalised_create. exact IH.
    + apply normalised_update. exact IH.
    + apply normalised_delete. exact IH.
Qed.

Lemma trim_blank s : isBlank s = true -> trim s = EmptyString.
Proof.
  unfold trim, isBlank. induction s as [| c s IH]; simpl; [ reflexivity | ].
  intros Hb. apply andb_true_iff in Hb as [Hc Hs]. rewrite Hc. exact (IH Hs).
Qed.

(** X11.  [create] does not look at what is left of the name after
    trimming: called with a name that consists of white space only, a slug
    that no stored record has and an unused identifier, it returns, and the
    organisation is stored, and returned, with the empty name. *)
Theorem blank_name_stored_empty insertedId now input st :
  isBlank (in_name input) = true ->
  findBySlug (normaliseSlug (in_slug input)) st = None ->
  (forall x, In x st -> _id x <> insertedId) ->
  exists d,
    run (perform insertedId) (create now input) st
    = (Returned (toOrganisationResponse d), st ++ [d])
    /\ name d = EmptyString
    /\ res_name (toOrganisationResponse d) = EmptyString.
Proof.
  intros Hblank Hfree Hunused. rewrite create_run, Hfree.
  unfold Repository.create.
  rewrite (proj2 (existsb_hasId_false _ _) Hunused). simpl.
  unfold normaliseName. rewrite (trim_blank _ Hblank).
  eexists. split; [ reflexivity | ]. split; reflexivity.
Qed.

(** X12.  The uniqueness check of [create] and its insert are two separate
    storage calls: when another request stores a record with the same
    normalised slug between them, [create] still returns, and the
    collection then holds two records with that slug. *)
Theorem create_check_then_insert_races insertedId now input st rival :
  findBySlug (normaliseSlug (in_slug input)) st = None ->
  slug rival = normaliseSlug (in_slug input) ->
  _id rival <> insertedId ->
  (forall x, In x st -> _id x <> insertedId) ->
  exists d,
    fst (exec (perform insertedId) [ (fun s => s); (fun s => s ++ [rival]) ]
           (create now input) st)
    = (Returned (toOrganisationResponse d), st ++ [rival; d])
    /\ slug d = slug rival
    /\ _id d <> _id rival.
Proof.
  intros Hfree Hslug Hrival Hunused. unfold create. cbn.
  rewrite Hfree. cbn. unfold Repository.create.
  assert (Hnew : existsb (hasId insertedId) (st ++ [rival]) = false).
  { apply existsb_hasId_false. intros x Hx.
    apply in_app_or in Hx as [Hx | [<- | []]]; auto. }
  rewrite Hnew. cbn. eexists. split; [ | split ].
  - rewrite <- app_assoc. reflexivity.
  - simpl. symmetry. exact Hslug.
  - simpl. intros E. apply Hrival. symmetry. exact E.
Qed.

(** X13.  The status codes of the routes that take no body.  GET /:id
    answers 200 with the view of the stored record, 400 exactly for a
    refused id and 404 exactly for an accepted id that is not stored.
    DELETE /:id answers 204, 400 exactly for a refused id and 404 exactly
    for an accepted id that is not stored.  The listing always answers 200
    with a count equal to the number of views.  The message of a mapped
    error is the message of the service error. *)
Theorem route_status_codes insertedId st :
  (forall id,
     match fst (getRoute insertedId id st) with
     | Replied code view =>
         code = 200 /\ ObjectId_isValid id = true
         /\ exists d, findById (ObjectId_new id) st = Some d
                      /\ view = toOrganisationResponse d
     | Threw (Http e) =>
         (statusCode e = 400 /\ httpMessage e = "Invalid organisation id"
          /\ ObjectId_isValid id = false)
         \/ (statusCode e = 404 /\ httpMessage e = "Organisation not found"
             /\ ObjectId_isValid id = true
             /\ findById (ObjectId_new id) st = None)
     | Threw (Unmapped _) => False
     end)
  /\ (forall id,
        match fst (deleteRoute insertedId id st) with
        | Replied code _ =>
            code = 204 /\ ObjectId_isValid id = true
            /\ exists d, findById (ObjectId_new id) st = Some d
        | Threw (Http e) =>
            (statusCode e = 400 /\ httpMessage e = "Invalid organisation id"
             /\ ObjectId_isValid id = false)
            \/ (statusCode e = 404 /\ httpMessage e = "Organisation not found"
                /\ ObjectId_isValid id = true
                /\ findById (ObjectId_new id) st = None)
        | Threw (Unmapped _) => False
        end)
  /\ (forall status,
        exists data,
          listRoute status st = (Replied 200 (data, length data), st)).
Proof.
  split; [ | split ].
  - intros id. unfold getRoute. rewrite getById_run.
    destruct (ObjectId_isValid id) eqn:Hvalid; simpl; [ | left; auto ].
    destruct (findById (ObjectId_new id) st) as [d |] eqn:Hf; simpl.
    + split; [ reflexivity | ]. split; [ reflexivity | ]. eauto.
    + right. auto.
  - intros id. unfold deleteRoute. rewrite delete_run.
    destruct (ObjectId_isValid id) eqn:Hvalid; simpl; [ | left; auto ].
    destruct (findById (ObjectId_new id) st) as [d |] eqn:Hf.
    + destruct (deleteById_found _ _ _ Hf) as (l1 & l2 & _ & ->). simpl. eauto.
    + rewrite (deleteById_absent _ _ Hf). simpl. right. auto.
  - intros status. eexists. unfold listRoute. simpl. reflexivity.
Qed.

Lemma postHandler_throws insertedId now body st :
  exists cause,
    postHandler insertedId now body st = (Threw (Unmapped cause), st)
    /\ ((cause = ZodError /\ createOrganisationSchema body = None)
        \/ (cause = UncaughtTypeError
            /\ exists parsed,
                 createOrganisationSchema body = Some parsed
                 /\ body_code body = Some (JsonString (parsed_code parsed))))
    /\ (body_code body = None -> cause = ZodError).
Proof.
  unfold postHandler.
  destruct (createOrganisationSchema body) as [parsed |] eqn:Hparse.
  - destruct (createOrganisationSchema_some _ _ Hparse) as (_ & Hcode & _).
    exists UncaughtTypeError. split; [ reflexivity | ]. split.
    + right. split; [ reflexivity | ]. exists parsed. split; [ reflexivity | exact Hcode ].
    + intros E. rewrite E in Hcode. discriminate Hcode.
  - exists ZodError. split; [ reflexivity | ]. split.
    + left. split; reflexivity.
    + reflexivity.
Qed.

(** X18.  POST / never answers 201 or 409 and never stores.  Whatever the
    body and whatever the framework's check of it lets through, either the
    framework answers 400, or the handler runs and ends by throwing on,
    unmapped, the error of the refused [parse] (always so when the body it
    was given has no [code]) or the [TypeError] that [create] raises on the
    parsed object, which has no slug.  The collection is left as it was. *)
Theorem post_never_stores validate insertedId now body st :
  snd (postRoute validate insertedId now body st) = st
  /\ ((validate body = None
       /\ fst (postRoute validate insertedId now body st) = RefusedBody)
      \/ exists accepted cause,
           validate body = Some accepted
           /\ postHandler insertedId now accepted st = (Threw (Unmapped cause), st)
           /\ fst (postRoute validate insertedId now body st)
              = Handled (Threw (Unmapped cause))
           /\ ((cause = ZodError /\ createOrganisationSchema accepted = None)
               \/ (cause = UncaughtTypeError
                   /\ exists parsed,
                        createOrganisationSchema accepted = Some parsed
                        /\ body_code accepted
                           = Some (JsonString (parsed_code parsed))))
           /\ (body_code accepted = None -> cause = ZodError)).
Proof.
  unfold postRoute. destruct (validate body) as [accepted |].
  - destruct (postHandler_throws insertedId now accepted st)
      as (cause & Hrun & Hcause & Hnone).
    rewrite Hrun. split; [ reflexivity | ]. right.
    exists accepted, cause. repeat split; assumption.
  - split; [ reflexivity | ]. left. split; reflexivity.
Qed.

Lemma update_without_slug insertedId now id input st :
  upd_slug input = None ->
  let out := run (perform insertedId) (update now id input) st in
  map slug (snd out) = map slug st
  /\ fst out <> Raised OrganisationSlugTakenError
  /\ fst out <> DriverError.
Proof.
  intros Hnone. destruct (ObjectId_isValid id) eqn:Hvalid.
  2: { rewrite (update_invalid_id _ _ _ _ _ Hvalid). simpl.
       repeat split; discriminate. }
  cbv zeta. rewrite (update_run _ _ _ _ _ Hvalid).
  destruct (findById (ObjectId_new id) st) as [org |] eqn:Hload.
  2: { simpl. repeat split; discriminate. }
  rewrite Hnone. cbv zeta.
  destruct (findById_some _ _ _ Hload) as [_ Hid]. rewrite <- Hid in Hload.
  destruct (updateById_found _ (updatePayload now input) _ _ Hload)
    as (l1 & l2 & Hst & _ & ->).
  simpl. split; [ | split; discriminate ].
  rewrite Hst, !map_app. simpl. unfold updatePayload. rewrite Hnone. reflexivity.
Qed.

(** X20.  PATCH /:id never changes a slug and never answers 409.  The
    parsed body has no slug, so [update] is never handed one: either the
    framework answers 400, or the handler throws on the error of a refused
    [parse], or it answers what [update] without a slug answers, 200, 400
    for a refused id or 404.  The slugs of the collection are the same
    afterwards, in the same order. *)
Theorem patch_never_changes_slug validate absentStatus insertedId now id body st :
  map slug (snd (patchRoute validate absentStatus insertedId now id body st))
  = map slug st
  /\ match fst (patchRoute validate absentStatus insertedId now id body st) with
     | RefusedBody => validate body = None
     | Handled (Replied code _) => code = 200
     | Handled (Threw (Http e)) =>
         (statusCode e = 400 /\ ObjectId_isValid id = false)
         \/ (statusCode e = 404 /\ ObjectId_isValid id = true)
     | Handled (Threw (Unmapped cause)) =>
         cause = ZodError
         /\ exists accepted,
              validate body = Some accepted
              /\ updateOrganisationSchema absentStatus accepted = None
     end.
Proof.
  unfold patchRoute. destruct (validate body) as [accepted |] eqn:Hv;
    [ | split; reflexivity ].
  unfold patchHandler.
  destruct (updateOrganisationSchema absentStatus accepted) as [parsed |] eqn:Hp.
  2: { simpl. split; [ reflexivity | ]. split; [ reflexivity | ].
       exists accepted. split; [ reflexivity | exact Hp ]. }
  destruct (update_without_slug insertedId now id (updateArgument parsed) st eq_refl)
    as (Hslugs & Hnot409 & Hnodriver).
  destruct (ObjectId_isValid id) eqn:Hvalid.
  - destruct (update_outcome insertedId now id (updateArgument parsed) st Hvalid)
      as [[E _] | [E | (l1 & d & l2 & _ & _ & _ & E & _)]];
      rewrite E in Hslugs, Hnot409 |- *; simpl in *.
    + split; [ exact Hslugs | ]. right. split; reflexivity.
    + destruct (Hnot409 eq_refl).
    + split; [ exact Hslugs | reflexivity ].
  - rewrite (update_invalid_id _ _ _ _ _ Hvalid). simpl.
    split; [ reflexivity | ]. left. split; reflexivity.
Qed.

(** C9.  Service calls made one after the other, from the empty
    collection: no two stored organisations have the same slug, whatever
    the inputs of the calls were; and when every slug handed to [create]
    and to [update] is accepted by the kebab-case pattern, every stored
    slug is accepted by it too. *)
Theorem sequential_slug_invariant allowed st :
  reachableBy allowed st ->
  NoDup (map slug st)
  /\ ((forall c, allowed c = true -> slugsMatch c = true) ->
      Forall (fun d => test kebabPattern (slug d) = true) st).
Proof.
  intros Hreach. split.
  - assert (Hn : normalised st).
    { induction Hreach as [| insertedId c st _ IH _].
      - repeat split; constructor.
      - destruct c as [id | now input | now id input | id]; simpl.
        + rewrite getById_run. destruct (ObjectId_isValid id); [ | exact IH ].
          destruct (findById (ObjectId_new id) st); exact IH.
        + apply normalised_create. exact IH.
        + apply normalised_update. exact IH.
        + apply normalised_delete. exact IH. }
    exact (proj1 (proj2 Hn)).
  - intros Hmatch.
    assert (Hwf : wellFormed st).
    { induction Hreach as [| insertedId c st _ IH Hallowed].
      - repeat split; constructor.
      - specialize (Hmatch c Hallowed).
        destruct c as [id | now input | now id input | id]; simpl.
        + apply wellFormed_getById. exact IH.
        + apply wellFormed_create; [ exact Hmatch | exact IH ].
        + apply wellFormed_update; [ exact Hmatch | exact IH ].
        + apply wellFormed_delete. exact IH. }
    exact (proj2 (proj2 Hwf)).
Qed.

End WithLibraries.

(** Worked examples on the sample data. *)
#[local] Existing Instance Sample.sampleLibraries.

Lemma create_then_getById_witness :
  ObjectId_isValid (toHexString Sample.oidB) = true
  /\ ObjectId_new (toHexString Sample.oidB) = Sample.oidB
  /\ res_id (toOrganisationResponse Sample.orgB) = toHexString Sample.oidB.
Proof.
  split; [ reflexivity | ]. split; [ reflexivity | ].
  exact (proj1 (create_then_getById (L := Sample.sampleLibraries)
                  Sample.oidB Sample.oidA 0%Z
                  (mkCreateOrganisationInput " Beta" "BETA " None)
                  [Sample.orgA] (toOrganisationResponse Sample.orgB)
                  eq_refl eq_refl eq_refl)).
Defined.

Lemma create_same_slug_refused_witness :
  normaliseSlug "acme " = normaliseSlug " ACME"
  /\ fst (run (perform Sample.oidB)
            (create 1%Z (mkCreateOrganisationInput "Again" "acme " None))
            (snd (run (perform Sample.oidA)
                    (create 0%Z (mkCreateOrganisationInput "Acme" " ACME" None)) [])))
     = Raised OrganisationSlugTakenError.
Proof.
  split; [ reflexivity | ].
  exact (f_equal fst
           (proj1 (proj2
              (create_same_slug_refused (L := Sample.sampleLibraries)
                 Sample.oidA Sample.oidB 0%Z 1%Z
                 (mkCreateOrganisationInput "Acme" " ACME" None)
                 (mkCreateOrganisationInput "Again" "acme " None)
                 [] (toOrganisationResponse Sample.orgA) eq_refl eq_refl)))).
Defined.

Lemma delete_removes_record_witness :
  ObjectId_isValid "65f000000000000000000001" = true
  /\ findById (ObjectId_new "65f000000000000000000001") [Sample.orgB; Sample.orgA]
     = Some Sample.orgA
  /\ exists l1 l2,
       [Sample.orgB; Sample.orgA] = l1 ++ Sample.orgA :: l2
       /\ run (perform Sample.oidB) (delete "65f000000000000000000001")
            [Sample.orgB; Sample.orgA]
          = (Returned tt, l1 ++ l2).
Proof.
  split; [ reflexivity | ]. split; [ reflexivity | ].
  destruct (delete_removes_record (L := Sample.sampleLibraries) Sample.oidB
              "65f000000000000000000001" [Sample.orgB; Sample.orgA] Sample.orgA
              eq_refl eq_refl) as (l1 & l2 & Hst & _ & Hrun & _).
  exists l1, l2. split; assumption.
Defined.

Lemma delete_frees_slug_witness :
  ObjectId_isValid "65f000000000000000000001" = true
  /\ findById (ObjectId_new "65f000000000000000000001") [Sample.orgA; Sample.orgB]
     = Some Sample.orgA
  /\ NoDup (map slug [Sample.orgA; Sample.orgB])
  /\ normaliseSlug "Acme" = slug Sample.orgA
  /\ fst (run (perform Sample.oidA)
            (create 3%Z (mkCreateOrganisationInput "Acme 2" "Acme" None))
            (snd (run (perform Sample.oidB) (delete "65f000000000000000000001")
                    [Sample.orgA; Sample.orgB])))
     <> Raised OrganisationSlugTakenError.
Proof.
  assert (Hnd : NoDup (map slug [Sample.orgA; Sample.orgB])).
  { simpl. constructor; [ intros [E | []]; discriminate E | ].
    constructor; [ intros [] | constructor ]. }
  split; [ reflexivity | ]. split; [ reflexivity | ]. split; [ exact Hnd | ].
  split; [ reflexivity | ].
  exact (proj1 (delete_frees_slug (L := Sample.sampleLibraries)
                  Sample.oidB Sample.oidA "65f000000000000000000001" 3%Z
                  (mkCreateOrganisationInput "Acme 2" "Acme" None)
                  [Sample.orgA; Sample.orgB] Sample.orgA
                  eq_refl eq_refl Hnd eq_refl)).
Defined.

Lemma create_check_then_insert_races_witness :
  findBySlug (normaliseSlug (in_slug (mkCreateOrganisationInput "Acme 2" " Acme" None))) []
  = None
  /\ exists d,
       fst (exec (perform Sample.oidB) [ (fun s => s); (fun s => s ++ [Sample.orgA]) ]
              (create 1%Z (mkCreateOrganisationInput "Acme 2" " Acme" None)) [])
       = (Returned (toOrganisationResponse d), [] ++ [Sample.orgA; d]).
Proof.
  split; [ reflexivity | ].
  destruct (create_check_then_insert_races (L := Sample.sampleLibraries)
              Sample.oidB 1%Z (mkCreateOrganisationInput "Acme 2" " Acme" None)
              [] Sample.orgA eq_refl eq_refl ltac:(discriminate)
              (fun x (H : In x []) => match H with end))
    as (d & Hrun & _).
  exists d. exact Hrun.
Defined.

Lemma update_touches_one_record_witness :
  length (snd (run (perform Sample.oidB)
                 (update 7%Z "65f000000000000000000002"
                    (mkUpdateOrganisationInput None None (Some archived)))
                 [Sample.orgA; Sample.orgB]))
  = length [Sample.orgA; Sample.orgB].
Proof.
  exact (proj1 (proj2
    (update_touches_one_record (L := Sample.sampleLibraries)
       Sample.oidB Sample.oidA 7%Z "65f000000000000000000002"
       (mkUpdateOrganisationInput None None (Some archived))
       [Sample.orgA; Sample.orgB]
       (mkOrganisationResponse "65f000000000000000000002" "Beta" "beta" archived
          "1970-01-01T00:00:00.000Z" "later")
       eq_refl))).
Defined.

Lemma service_keeps_normalised_witness :
  NoDup (map slug
           (after Sample.oidA
              (CallCreate 0%Z (mkCreateOrganisationInput "  Acme " " ACME " None)) []))
  /\ Forall (fun d => toLowerCase (trim (slug d)) = slug d
                      /\ trim (name d) = name d)
       (after Sample.oidA
          (CallCreate 0%Z (mkCreateOrganisationInput "  Acme " " ACME " None)) []).
Proof.
  refine (proj2 (service_keeps_normalised (L := Sample.sampleLibraries) _ _)).
  apply serviceReachable_after. apply serviceReachable_empty.
Defined.

Lemma blank_name_stored_empty_witness :
  isBlank "   " = true
  /\ findBySlug (normaliseSlug "acme") [] = None
  /\ exists d,
       run (perform Sample.oidA)
         (create 0%Z (mkCreateOrganisationInput "   " "acme" None)) []
       = (Returned (toOrganisationResponse d), [d])
       /\ name d = EmptyString.
Proof.
  split; [ reflexivity | ]. split; [ reflexivity | ].
  destruct (blank_name_stored_empty (L := Sample.sampleLibraries) Sample.oidA 0%Z
              (mkCreateOrganisationInput "   " "acme" None) []
              eq_refl eq_refl (fun x (H : In x []) => match H with end))
    as (d & Hrun & Hname & _).
  exists d. split; [ exact Hrun | exact Hname ].
Defined.

(** Two creates with the same slug, the second running from start to end
    between the uniqueness check of the first and its insert: both store
    their record, and the collection holds the slug twice.  And a create
    that runs alone with a slug that the pattern refuses stores it, trimmed
    and lower-cased, all the same. *)
Lemma slug_invariant_broken :
  let first := mkCreateOrganisationInput "Acme" "acme" None in
  let second := mkCreateOrganisationInput "Acme again" "acme" None in
  let raced :=
    snd (fst (exec (perform Sample.oidA)
                [ (fun s : Store => s); after Sample.oidB (CallCreate 1%Z second) ]
                (create 0%Z first) [])) in
  let spaced :=
    after Sample.oidA
      (CallCreate 0%Z (mkCreateOrganisationInput "My Org" " My Org " None)) [] in
  (slugsMatch (CallCreate 0%Z first) = true
   /\ slugsMatch (CallCreate 1%Z second) = true
   /\ map slug raced = ["acme"; "acme"]%string
   /\ ~ NoDup (map slug raced))
  /\ (serviceReachable spaced
      /\ map slug spaced = ["my org"]%string
      /\ ~ Forall (fun d => test kebabPattern (slug d) = true) spaced).
Proof.
  cbv zeta. split.
  - split; [ reflexivity | ]. split; [ reflexivity | ].
    split; [ reflexivity | ].
    intros Hnd. change (NoDup ["acme"; "acme"]%string) in Hnd.
    inversion Hnd as [| x l Hnotin _]. apply Hnotin. left. reflexivity.
  - split; [ apply serviceReachable_after; apply serviceReachable_empty | ].
    split; [ reflexivity | ].
    intros Hall. apply Forall_inv in Hall. vm_compute in Hall. discriminate Hall.
Qed.

Lemma sequential_slug_invariant_witness :
  let st :=
    after Sample.oidB (CallCreate 1%Z (mkCreateOrganisationInput "Beta" "beta" None))
      (after Sample.oidA (CallCreate 0%Z (mkCreateOrganisationInput "Acme" "acme" None))
         []) in
  reachableBy slugsMatch st
  /\ NoDup (map slug st)
  /\ Forall (fun d => test kebabPattern (slug d) = true) st.
Proof.
  cbv zeta.
  pose proof (reachableBy_after slugsMatch Sample.oidB
                (CallCreate 1%Z (mkCreateOrganisationInput "Beta" "beta" None)) _
                (reachableBy_after slugsMatch Sample.oidA
                   (CallCreate 0%Z (mkCreateOrganisationInput "Acme" "acme" None)) []
                   (reachableBy_empty slugsMatch) eq_refl)
                eq_refl) as Hreach.
  split; [ exact Hreach | ].
  destruct (sequential_slug_invariant (L := Sample.sampleLibraries) slugsMatch _ Hreach)
    as [Hnd Hfmt].
  split; [ exact Hnd | ]. apply Hfmt. intros c Hc. exact Hc.
Defined.

End OrganisationMoreFacts.

Module AuthMoreFacts.
Import JsText Effects Effects.Notations Lib Auth AuthMore.
Import LibFacts AuthFacts.

Local Arguments findOne : simpl never.
Local Arguments updateOne : simpl never.

Lemma backslash_is_special c :
  isRegexSpecial c = false -> Ascii.eqb c "\"%char = false.
Proof.
  intros H. destruct (Ascii.eqb c "\"%char) eqn:E; [ | reflexivity ].
  assert (Ht : isRegexSpecial c = true).
  { unfold isRegexSpecial. apply existsb_exists. exists "\"%char.
    split; [ | exact E ]. simpl. tauto. }
  congruence.
Qed.

Lemma unescape_escapeForRegex value : unescape (escapeForRegex value) = value.
Proof.
  induction value as [| c value IH]; [ reflexivity | ].
  simpl escapeForRegex. destruct (isRegexSpecial c) eqn:Hc.
  - simpl. rewrite IH. reflexivity.
  - simpl. rewrite (backslash_is_special c Hc), IH. reflexivity.
Qed.

(** X14.  The pattern escape can be read back: removing the escaping
    backslashes from [escapeForRegex value] gives [value] again, so two
    different addresses never give the same pattern; the escape adds one
    backslash per special character and leaves a value without special
    characters as it is. *)
Theorem escapeForRegex_reversible value :
  unescape (escapeForRegex value) = value
  /\ (forall other, escapeForRegex other = escapeForRegex value -> other = value)
  /\ String.length (escapeForRegex value)
     = String.length value + countChars isRegexSpecial value
  /\ (countChars isRegexSpecial value = 0 -> escapeForRegex value = value).
Proof.
  split; [ apply unescape_escapeForRegex | ]. split; [ | split ].
  - intros other E.
    rewrite <- (unescape_escapeForRegex other), E. apply unescape_escapeForRegex.
  - induction value as [| c value IH]; [ reflexivity | ].
    simpl. destruct (isRegexSpecial c); simpl; rewrite IH; lia.
  - induction value as [| c value IH]; [ reflexivity | ].
    simpl. destruct (isRegexSpecial c); simpl; [ discriminate | ].
    intros Hz. rewrite (IH Hz). reflexivity.
Qed.

Section WithLibraries.
Context {L : Libraries}.

(** Every query of a login that runs alone is a query of its lookup. *)
Lemma queries_are_lookup_calls app loginTime uuid body users filter st :
  mongo_db app = true ->
  In (FindOne filter, st)
     (snd (exec perform [] (login app loginTime uuid body) users)) ->
  In (FindOne filter, st) (lookupCalls users (trim (body_email body))).
Proof.
  intros Hdb. rewrite (login_exec _ _ _ _ _ Hdb). cbv zeta.
  destruct (lookupResult users (trim (body_email body))) as [u |];
    [ | exact (fun H => H) ].
  destruct (negb (bcrypt_compare _ _)); [ | destruct (negb (isActive _)) ];
    cbn [snd]; intros Hin; apply in_app_or in Hin as [Hin | Hin];
    try exact Hin; simpl in Hin;
    repeat (destruct Hin as [Hin | Hin]; try discriminate Hin);
    destruct Hin.
Qed.

(** X15.  The lookup policy of the login handler.  When a stored user has
    exactly the trimmed address, that user is the one checked and no
    pattern query is made.  When the address is empty after trimming, the
    handler makes the exact query only and, finding nobody, answers
    unauthorised.  Whenever a pattern query is made, it is the anchored
    escape of the trimmed address with the flag [i]. *)
Theorem lookup_policy app loginTime uuid body users :
  mongo_db app = true ->
  let e := trim (body_email body) in
  let tr := snd (exec perform [] (login app loginTime uuid body) users) in
  (forall u, findOne (EmailIs e) users = Some u ->
     lookupResult users e = Some u
     /\ forall source flags st, ~ In (FindOne (EmailRegExp source flags), st) tr)
  /\ (e = EmptyString -> findOne (EmailIs e) users = None ->
      exec perform [] (login app loginTime uuid body) users
      = (Returned (Unauthorized invalidCredentials), users,
         [ (FindOne (EmailIs e), users) ]))
  /\ (forall source flags st,
        In (FindOne (EmailRegExp source flags), st) tr ->
        source = ("^" ++ escapeForRegex e ++ "$")%string
        /\ flags = "i"%string /\ st = users /\ e <> EmptyString
        /\ findOne (EmailIs e) users = None).
Proof.
  intros Hdb e tr.
  assert (Hq : forall source flags st,
    In (FindOne (EmailRegExp source flags), st) tr ->
    source = ("^" ++ escapeForRegex e ++ "$")%string
    /\ flags = "i"%string /\ st = users /\ e <> EmptyString
    /\ findOne (EmailIs e) users = None).
  { intros source flags st Hin. subst tr.
    apply (queries_are_lookup_calls _ _ _ _ _ _ _ Hdb) in Hin.
    fold e in Hin. unfold lookupCalls in Hin.
    destruct Hin as [E | Hin]; [ discriminate E | ].
    destruct (findOne (EmailIs e) users); [ destruct Hin | ].
    destruct (String.eqb e "") eqn:Hempty; cbn [negb] in Hin; [ destruct Hin | ].
    apply String.eqb_neq in Hempty.
    destruct Hin as [E | []]. injection E as <- <- <-. auto. }
  split; [ | split; [ | exact Hq ] ].
  - intros u Hexact. split.
    + unfold lookupResult. rewrite Hexact. reflexivity.
    + intros source flags st Hin.
      destruct (Hq _ _ _ Hin) as (_ & _ & _ & _ & Hnone). congruence.
  - intros Hempty Hnone. rewrite (login_exec _ _ _ _ _ Hdb). cbv zeta.
    fold e. unfold lookupResult, lookupCalls. rewrite Hnone, Hempty.
    reflexivity.
Qed.

(** X16.  What a successful login tells about the user: the reply and both
    token payloads carry the stored user's identifier, stored address (not
    the submitted one) and optional organisation, role and designation
    identifiers in hexadecimal, absent ones as null; the reply carries the
    stored mobile number, the status [active] and the login instant as the
    last-login time; and the password matched the stored hash. *)
Theorem login_reply_describes_user app loginTime uuid body users r :
  fst (run perform (login app loginTime uuid body) users) = Returned (LoggedIn r) ->
  exists u,
    In u users
    /\ lookupResult users (trim (body_email body)) = Some u
    /\ bcrypt_compare (body_password body) (passwordHash u) = true
    /\ user r = mkLoginUser (toHexString (_id u)) (email u) active
                  (option_map toHexString (orgId u))
                  (option_map toHexString (roleId u))
                  (option_map toHexString (designationId u))
                  (mobileNumber u) (toISOString loginTime)
    /\ decode (accessToken r)
       = mkJwtPayload (toHexString (_id u)) (email u)
           (option_map toHexString (orgId u))
           (option_map toHexString (roleId u))
           (option_map toHexString (designationId u)) uuid access
    /\ decode (refreshToken r)
       = mkJwtPayload (toHexString (_id u)) (email u)
           (option_map toHexString (orgId u))
           (option_map toHexString (roleId u))
           (option_map toHexString (designationId u)) uuid refresh.
Proof.
  intros Hr. destruct (mongo_db app) eqn:Hdb.
  2: { unfold run, login in Hr. rewrite Hdb in Hr. discriminate Hr. }
  unfold run in Hr. rewrite (login_exec _ _ _ _ _ Hdb) in Hr. cbv zeta in Hr.
  destruct (lookupResult users (trim (body_email body))) as [u |] eqn:Hfound;
    [ | discriminate Hr ].
  destruct (bcrypt_compare (body_password body) (passwordHash u)) eqn:Hpw;
    [ | discriminate Hr ].
  destruct (status u) eqn:Hstatus; try discriminate Hr.
  simpl in Hr. injection Hr as <-.
  exists u. split; [ exact (lookupResult_stored _ _ _ Hfound) | ].
  split; [ reflexivity | ]. split; [ exact Hpw | ].
  unfold replyFor, hexOf. simpl. rewrite Hstatus. auto.
Qed.

Lemma find_after_stamp (p : UserDocument -> bool) f set users :
  (forall d, p (applyStamp set d) = p d) ->
  match find p users with
  | Some x =>
      exists x', find p (updateOne f set users) = Some x'
                 /\ (x' = x \/ x' = applyStamp set x)
  | None => find p (updateOne f set users) = None
  end.
Proof.
  intros Hp. induction users as [| a users IH]; [ reflexivity | ].
  unfold updateOne. fold (updateOne f set users).
  destruct (matches f a); simpl.
  - rewrite Hp. destruct (p a).
    + exists (applyStamp set a). auto.
    + destruct (find p users) as [x |]; [ exists x; auto | reflexivity ].
  - destruct (p a); [ exists a; auto | exact IH ].
Qed.

Lemma lookupResult_after_stamp f set users e u :
  lookupResult users e = Some u ->
  exists u', lookupResult (updateOne f set users) e = Some u'
             /\ (u' = u \/ u' = applyStamp set u).
Proof.
  unfold lookupResult, findOne. intros Hfound.
  pose proof (find_after_stamp (matches (EmailIs e)) f set users
                (fun d => eq_refl)) as Hexact.
  destruct (find (matches (EmailIs e)) users) as [x |].
  - injection Hfound as <-. destruct Hexact as (x' & -> & Hx'). eauto.
  - rewrite Hexact. destruct (negb (String.eqb e "")); [ | discriminate ].
    pose proof (find_after_stamp
                  (matches (EmailRegExp ("^" ++ escapeForRegex e ++ "$") "i"))
                  f set users (fun d => eq_refl)) as Hci.
    rewrite Hfound in Hci. exact Hci.
Qed.

(** X17.  Logging in does not get in the way of logging in again: after a
    successful login, a login with the same body, at any later instant and
    with any session identifier, succeeds on the collection the first one
    left, for the same user identifier and address. *)
Theorem login_again app time1 uuid1 time2 uuid2 body users r :
  fst (run perform (login app time1 uuid1 body) users) = Returned (LoggedIn r) ->
  exists r',
    fst (run perform (login app time2 uuid2 body)
           (snd (run perform (login app time1 uuid1 body) users)))
    = Returned (LoggedIn r')
    /\ user_id (user r') = user_id (user r)
    /\ user_email (user r') = user_email (user r)
    /\ sessionId (decode (accessToken r')) = uuid2.
Proof.
  intros Hr. destruct (mongo_db app) eqn:Hdb.
  2: { unfold run, login in Hr. rewrite Hdb in Hr. discriminate Hr. }
  unfold run in *. rewrite !(login_exec _ _ _ _ _ Hdb) in *. cbv zeta in *.
  destruct (lookupResult users (trim (body_email body))) as [u |] eqn:Hfound;
    [ | discriminate Hr ].
  destruct (bcrypt_compare (body_password body) (passwordHash u)) eqn:Hpw;
    [ | discriminate Hr ].
  destruct (isActive (status u)) eqn:Hactive; [ | discriminate Hr ].
  simpl in Hr. injection Hr as <-. simpl fst. simpl snd.
  destruct (lookupResult_after_stamp (IdIs (_id u)) (mkLoginStamp time1 time1)
              users _ u Hfound) as (u' & -> & Hu').
  assert (Hsame : passwordHash u' = passwordHash u /\ status u' = status u
                  /\ _id u' = _id u /\ email u' = email u).
  { destruct Hu' as [-> | ->]; simpl; auto. }
  destruct Hsame as (Hh & Hs & Hi & He).
  rewrite Hh, Hs, Hpw, Hactive. simpl.
  eexists. split; [ reflexivity | ]. simpl. rewrite Hi, He. auto.
Qed.

End WithLibraries.

(** Worked examples on the sample data. *)
#[local] Existing Instance Sample.sampleLibraries.

Lemma lookup_policy_witness :
  mongo_db Sample.sampleApp = true
  /\ lookupResult [Sample.bob; Sample.ada]
       (trim (body_email (mkLoginBody " ada@example.com " "x")))
     = Some Sample.ada.
Proof.
  split; [ reflexivity | ].
  exact (proj1 (proj1
    (lookup_policy (L := Sample.sampleLibraries) Sample.sampleApp 1%Z "s-1"
       (mkLoginBody " ada@example.com " "x") [Sample.bob; Sample.ada] eq_refl)
    Sample.ada eq_refl)).
Defined.

Lemma login_reply_describes_user_witness :
  exists u,
    In u [Sample.bob; Sample.ada]
    /\ lookupResult [Sample.bob; Sample.ada]
         (trim (body_email (mkLoginBody "ADA@example.com" "correct horse")))
       = Some u.
Proof.
  destruct (login_reply_describes_user (L := Sample.sampleLibraries)
              Sample.sampleApp 4%Z "s-4"
              (mkLoginBody "ADA@example.com" "correct horse")
              [Sample.bob; Sample.ada]
              (replyFor Sample.sampleApp 4%Z "s-4" Sample.ada) eq_refl)
    as (u & Hin & Hfound & _).
  exists u. split; assumption.
Defined.

Lemma login_again_witness :
  exists r',
    fst (run perform
           (login Sample.sampleApp 5%Z "s-5" (mkLoginBody "ada@example.com" "correct horse"))
           (snd (run perform
                   (login Sample.sampleApp 4%Z "s-4"
                      (mkLoginBody "ada@example.com" "correct horse"))
                   [Sample.bob; Sample.ada])))
    = Returned (LoggedIn r').
Proof.
  destruct (login_again (L := Sample.sampleLibraries) Sample.sampleApp
              4%Z "s-4" 5%Z "s-5"
              (mkLoginBody "ada@example.com" "correct horse")
              [Sample.bob; Sample.ada]
              (replyFor Sample.sampleApp 4%Z "s-4" Sample.ada) eq_refl)
    as (r' & Hr' & _).
  exists r'. exact Hr'.
Defined.

End AuthMoreFacts.
